(** * Device remotes: serial laser, deformable mirrors and the mock libraries

    A shallow embedding of [microscope/lasers/obis.py],
    [microscope/mirror/alpao.py], [microscope/mirror/bmc.py] and
    [microscope/testsuite/libs.py].

    Python methods become functions in a small state-and-exception monad
    that also records what the method does to the outside world (bytes
    written to the serial port, lines read from it, calls into a vendor
    SDK, attribute assignments).  The Python runtime's own conversions
    ([bytes.decode], [float(str)], [%]-formatting) and the vendor SDKs are
    parameters of the sections that use them. *)

From Stdlib Require Import ZArith List String Ascii Bool Lia Floats Uint63.
From Stdlib Require Import Strings.Byte DecimalString.
From stdpp Require Import base option list strings gmap.
Import ListNotations.

Set Default Proof Using "Type".
Local Open Scope list_scope.

(** ** Python values shared by the modules *)

(** [b"..."] reads like a Python bytes literal. *)
Definition b (s : string) : list byte := list_byte_of_string s.
Arguments b : simpl never.

Fixpoint bytes_eqb (x y : list byte) : bool :=
  match x, y with
  | [], [] => true
  | c :: x', d :: y' => Byte.eqb c d && bytes_eqb x' y'
  | _, _ => false
  end.

(** The exceptions the modelled code can raise or let through. *)
Inductive exn : Type :=
| SerialException
| UnicodeDecodeError
| ValueError
| OverflowError
| TypeError
| NameError (name : string)
| AttributeError (msg : string)
| Exception (msg : string).

Inductive result (A : Type) : Type :=
| Returns (a : A)
| Raises (e : exn).
Arguments Returns {A} a.
Arguments Raises {A} e.

Definition raised {A} (r : result A) : bool :=
  match r with Raises _ => true | Returns _ => false end.

(** ** Programs: state, exceptions and a log of effects *)

Section Programs.
Context {S E : Type}.

Definition prog (A : Type) : Type := S -> result A * S * list E.

Definition ret {A} (a : A) : prog A := fun s => (Returns a, s, []).

Definition raise {A} (e : exn) : prog A := fun s => (Raises e, s, []).

Definition bind {A B} (m : prog A) (k : A -> prog B) : prog B := fun s =>
  match m s with
  | (Returns a, s1, t1) =>
      match k a s1 with (r, s2, t2) => (r, s2, t1 ++ t2) end
  | (Raises e, s1, t1) => (Raises e, s1, t1)
  end.

(** One effect on the outside world, leaving the object as it is. *)
Definition emit (e : E) : prog unit := fun s => (Returns tt, s, [e]).

Definition get_state : prog S := fun s => (Returns s, s, []).

Definition modify (f : S -> S) : prog unit := fun s => (Returns tt, f s, []).

(** [try: m except: ...]: the outcome of [m] as a value; nothing
    propagates. *)
Definition try {A} (m : prog A) : prog (result A) := fun s =>
  match m s with (r, s1, t1) => (Returns r, s1, t1) end.

(** A value that is there or an exception. *)
Definition lift {A} (o : option A) (e : exn) : prog A :=
  match o with Some a => ret a | None => raise e end.

(** [for x in l: body x], collecting what the bodies return. *)
Fixpoint for_each {A B} (body : A -> prog B) (l : list A) : prog (list B) :=
  match l with
  | [] => ret []
  | x :: l' =>
      bind (body x) (fun y => bind (for_each body l') (fun ys => ret (y :: ys)))
  end.

Definition outcome {A} (o : result A * S * list E) : result A := o.1.1.
Definition final {A} (o : result A * S * list E) : S := o.1.2.
Definition effects {A} (o : result A * S * list E) : list E := o.2.
End Programs.

Arguments prog : clear implicits.

Declare Scope prog_scope.
Delimit Scope prog_scope with prog.
Notation "x <- m ;; k" := (bind m (fun x => k))
  (at level 100, m at level 99, k at level 200, right associativity,
   format "'[v' x  <-  m  ;; '/' k ']'") : prog_scope.
Notation "m ;; k" := (bind m (fun _ => k))
  (at level 100, k at level 200, right associativity,
   format "'[v' m  ;; '/' k ']'") : prog_scope.
Local Open Scope prog_scope.

(** ** Properties that every run of a program has

    [always P m]: from any state [s], the run of [m] relates [s] to the
    state it ends in and to its effects by [P].  When [P] holds of the
    empty run and of runs in sequence, it passes through the monad's
    operations. *)

Definition always {S E A} (P : S -> S -> list E -> Prop) (m : prog S E A) : Prop :=
  forall s, P s (final (m s)) (effects (m s)).

Section Always.
Context {S E : Type}.
Variable P : S -> S -> list E -> Prop.
Hypothesis P_refl : forall s, P s s [].
Hypothesis P_trans : forall s1 s2 s3 t1 t2,
  P s1 s2 t1 -> P s2 s3 t2 -> P s1 s3 (t1 ++ t2).

Lemma always_ret {A} (a : A) : always P (ret a).
Proof using P_refl. intros s. apply P_refl. Qed.

Lemma always_raise {A} (e : exn) : always P (raise (A:=A) e).
Proof using P_refl. intros s. apply P_refl. Qed.

Lemma always_get_state : always P get_state.
Proof using P_refl. intros s. apply P_refl. Qed.

Lemma always_lift {A} (o : option A) (e : exn) : always P (lift o e).
Proof using P_refl. destruct o; [apply always_ret | apply always_raise]. Qed.

Lemma always_bind {A B} (m : prog S E A) (k : A -> prog S E B) :
  always P m -> (forall a, always P (k a)) -> always P (bind m k).
Proof using P_trans.
  intros Hm Hk s. specialize (Hm s). unfold bind.
  destruct (m s) as [[[a|e] s1] t1]; [|exact Hm].
  specialize (Hk a s1). destruct (k a s1) as [[r s2] t2].
  exact (P_trans _ _ _ _ _ Hm Hk).
Qed.

Lemma always_try {A} (m : prog S E A) : always P m -> always P (try m).
Proof.
  intros Hm s. specialize (Hm s). unfold try.
  destruct (m s) as [[r s1] t1]. exact Hm.
Qed.

Lemma always_for_each {A B} (body : A -> prog S E B) (l : list A) :
  (forall x, always P (body x)) -> always P (for_each body l).
Proof using P_refl P_trans.
  intros Hbody. induction l as [|x l IH]; simpl.
  - apply always_ret.
  - apply always_bind; [apply Hbody|]. intros y.
    apply always_bind; [exact IH|]. intros ys. apply always_ret.
Qed.
End Always.

Lemma bind_returns {S E A B} (m : prog S E A) (k : A -> prog S E B) s a s1 t1 :
  m s = (Returns a, s1, t1) ->
  bind m k s = (outcome (k a s1), final (k a s1), t1 ++ effects (k a s1)).
Proof. intros H. unfold bind. rewrite H. now destruct (k a s1) as [[r s2] t2]. Qed.

Lemma bind_raises {S E A B} (m : prog S E A) (k : A -> prog S E B) s e s1 t1 :
  m s = (Raises e, s1, t1) -> bind m k s = (Raises e, s1, t1).
Proof. intros H. unfold bind. now rewrite H. Qed.

Lemma bind_emit {S E A} (e : E) (k : unit -> prog S E A) (s : S) :
  bind (emit e) k s = (outcome (k tt s), final (k tt s), e :: effects (k tt s)).
Proof. unfold bind, emit. now destruct (k tt s) as [[r s1] t1]. Qed.

Lemma bind_modify {S E A} (f : S -> S) (k : unit -> prog S E A) (s : S) :
  bind (modify f) k s = k tt (f s).
Proof. unfold bind, modify. now destruct (k tt (f s)) as [[r s1] t1]. Qed.

(** ** [bytes.strip] *)

(** The bytes Python's [bytes.strip()] removes: space, tab, newline,
    carriage return, vertical tab and form feed. *)
Definition is_space (c : byte) : bool :=
  match c with
  | x20 | x09 | x0a | x0d | x0b | x0c => true
  | _ => false
  end.

Fixpoint lstrip (l : list byte) : list byte :=
  match l with
  | c :: l' => if is_space c then lstrip l' else l
  | [] => []
  end.

Definition rstrip (l : list byte) : list byte := rev (lstrip (rev l)).

Definition strip (l : list byte) : list byte := rstrip (lstrip l).

(** [response] is [line] without its leading and trailing whitespace:
    what was cut at either end is whitespace, and what is left neither
    starts nor ends with whitespace. *)
Definition stripped_of (line response : list byte) : Prop :=
  exists pre post,
    line = pre ++ response ++ post
    /\ forallb is_space pre = true /\ forallb is_space post = true
    /\ (forall c rest, response = c :: rest -> is_space c = false)
    /\ (forall c rest, response = rest ++ [c] -> is_space c = false).

Lemma lstrip_split (l : list byte) :
  exists pre, l = pre ++ lstrip l /\ forallb is_space pre = true.
Proof.
  induction l as [|c l (pre & Hl & Hpre)]; [now exists []|].
  cbn [lstrip]. destruct (is_space c) eqn:Hc.
  - exists (c :: pre). cbn. rewrite Hc, Hpre. split; [congruence | reflexivity].
  - now exists [].
Qed.

Lemma lstrip_head (l : list byte) (c : byte) (rest : list byte) :
  lstrip l = c :: rest -> is_space c = false.
Proof.
  induction l as [|d l IH]; [discriminate|].
  cbn [lstrip]. destruct (is_space d) eqn:Hd; [exact IH|].
  now intros [= <- <-].
Qed.

Lemma strip_spec (l : list byte) : stripped_of l (strip l).
Proof.
  unfold stripped_of, strip, rstrip.
  destruct (lstrip_split l) as (pre & Hl & Hpre).
  destruct (lstrip_split (rev (lstrip l))) as (post & Hr & Hpost).
  exists pre, (rev post). repeat split.
  - rewrite Hl at 1. f_equal.
    rewrite <- (rev_involutive (lstrip l)), Hr at 1.
    now rewrite rev_app_distr.
  - exact Hpre.
  - rewrite forallb_forall in *. intros x Hx. apply Hpost. now apply in_rev.
  - intros c rest Hs.
    set (m := lstrip l) in *.
    destruct (lstrip (rev m)) as [|d inner] eqn:Hinner; [discriminate|].
    apply lstrip_head in Hinner as Hd.
    assert (Hm : m = rev inner ++ d :: rev post).
    { rewrite <- (rev_involutive m), Hr. cbn. rewrite rev_app_distr. cbn.
      now rewrite <- app_assoc. }
    cbn [rev] in Hs.
    destruct (rev inner) as [|e inner'] eqn:Hri.
    + cbn in Hs. now injection Hs as <- <-.
    + cbn in Hs. injection Hs as <- <-.
      subst m. destruct l as [|x l']; [discriminate|].
      eapply lstrip_head. exact Hm.
  - intros c rest Hs.
    destruct (lstrip (rev (lstrip l))) as [|d inner] eqn:Hinner.
    + cbn in Hs. now destruct rest.
    + apply lstrip_head in Hinner as Hd. cbn [rev] in Hs.
      apply app_inj_tail in Hs as [_ <-]. exact Hd.
Qed.

Example strip_example :
  strip (b" ON" ++ [x09; x0d; x0a]) = b"ON" /\ strip (b"A B" ++ [x0d; x0a]) = b"A B".
Proof. split; reflexivity. Qed.

Lemma bytes_eqb_eq (x y : list byte) : bytes_eqb x y = true <-> x = y.
Proof.
  revert y; induction x as [|c x IH]; intros [|d y]; simpl; try easy.
  rewrite andb_true_iff, IH. split.
  - intros [Hc ->]. apply byte_dec_bl in Hc. now subst.
  - intros [= -> ->]. split; [now apply byte_dec_lb | reflexivity].
Qed.


(** ** Comparing binary64 values

    Python's [x > y] and [x <= y] on floats are the IEEE comparisons; one
    excludes the other. *)

Lemma SFcompare_swap (x y : spec_float) :
  SFcompare y x = option_map CompOpp (SFcompare x y).
Proof.
  destruct x as [s1|s1| |s1 m1 e1], y as [s2|s2| |s2 m2 e2]; simpl;
    try reflexivity; try (destruct s1; reflexivity); try (destruct s2; reflexivity);
    try (destruct s1, s2; reflexivity).
  rewrite (Z.compare_antisym e1 e2).
  replace (PosDef.Pos.compare_cont Eq m2 m1)
    with (CompOpp (PosDef.Pos.compare_cont Eq m1 m2))
    by (symmetry; apply (Pos.compare_antisym m1 m2)).
  destruct s1, s2; simpl; try reflexivity;
    destruct (e1 ?= e2)%Z; simpl; reflexivity.
Qed.

Lemma leb_not_ltb (x y : float) :
  (x <=? y)%float = true -> (y <? x)%float = false.
Proof.
  rewrite FloatAxioms.leb_spec, FloatAxioms.ltb_spec. unfold SFleb, SFltb.
  rewrite (SFcompare_swap (Prim2SF x) (Prim2SF y)).
  destruct (SFcompare (Prim2SF x) (Prim2SF y)) as [[]|]; simpl; congruence.
Qed.

(** ** Instances of the runtime's conversions

    The theorems below hold for any [bytes.decode], [float(str)] and
    [%.5f]; these instances agree with Python on the inputs they accept
    and serve to run the models on concrete exchanges. *)

(** [bytes.decode()] on ASCII input; other input is refused here. *)
Definition decode_ascii (l : list byte) : option string :=
  if forallb (fun c => (Byte.to_N c <? 128)%N) l
  then Some (string_of_list_byte l) else None.

Definition digit_of (a : ascii) : option Z :=
  let n := (Z.of_N (N_of_ascii a) - 48)%Z in
  if ((0 <=? n) && (n <=? 9))%Z then Some n else None.

(** The digits of [s] appended to [acc], with how many there were. *)
Fixpoint digits_value (acc : Z) (count : nat) (s : string) : option (Z * nat) :=
  match s with
  | EmptyString => Some (acc, count)
  | String a s' =>
      match digit_of a with
      | Some d => digits_value (10 * acc + d)%Z (S count) s'
      | None => None
      end
  end.

Fixpoint split_at_dot (s : string) : string * option string :=
  match s with
  | EmptyString => (EmptyString, None)
  | String "." s' => (EmptyString, Some s')
  | String a s' =>
      match split_at_dot s' with (whole, frac) => (String a whole, frac) end
  end.

(** [float(s)] for an unsigned decimal [ddd] or [ddd.ddd] with at most
    fifteen digits: numerator and power of ten are then exact binary64
    values and their quotient is rounded once, as Python rounds. *)
Definition float_of_decimal (s : string) : option float :=
  match split_at_dot s with
  | (whole, frac) =>
      match digits_value 0 0 whole with
      | Some (w, nw) =>
          match digits_value w 0 (default EmptyString frac) with
          | Some (n, nf) =>
              if (0 <? nw + nf) && (nw + nf <=? 15)
              then Some (PrimFloat.of_uint63 (Uint63.of_Z n)
                         / PrimFloat.of_uint63 (Uint63.of_Z (10 ^ Z.of_nat nf)))%float
              else None
          | None => None
          end
      | None => None
      end
  end.

Definition round_half_even (num den : Z) : Z :=
  let q := (num / den)%Z in
  match (2 * (num mod den) ?= den)%Z with
  | Lt => q
  | Gt => (q + 1)%Z
  | Eq => if Z.even q then q else (q + 1)%Z
  end.

Definition decimal (n : Z) : string := NilZero.string_of_uint (N.to_uint (Z.to_N n)).

Fixpoint zeros (n : nat) : string :=
  match n with O => EmptyString | S n' => String "0" (zeros n') end.

(** [b'%.5f' % x]: the exact value of [x] rounded to five decimals, ties
    to even. *)
Definition format_fixed5 (x : float) : list byte :=
  match Prim2SF x with
  | S754_nan => b"nan"
  | S754_infinity s => if s then b"-inf" else b"inf"
  | S754_zero s => if s then b"-0.00000" else b"0.00000"
  | S754_finite s m e =>
      let n := if (0 <=? e)%Z
               then (Z.pos m * 2 ^ e * 100000)%Z
               else round_half_even (Z.pos m * 100000) (2 ^ (- e)) in
      let frac := decimal (n mod 100000) in
      list_byte_of_string
        ((if s then "-" else "") ++ decimal (n / 100000) ++ "."
         ++ zeros (5 - String.length frac) ++ frac)%string
  end.

Example float_of_decimal_example :
  float_of_decimal "0.05" = Some 0x1.999999999999ap-5%float
  /\ float_of_decimal "110" = Some 110%float
  /\ float_of_decimal "ON" = None.
Proof. repeat split; reflexivity. Qed.

Example format_fixed5_example :
  format_fixed5 0x1.999999999999ap-5 = b"0.05000"
  /\ format_fixed5 0.125 = b"0.12500"
  /\ format_fixed5 0x1.0p-18 = b"0.00000"
  /\ format_fixed5 (-1.5) = b"-1.50000".
Proof. repeat split; reflexivity. Qed.
(** ** The OBIS laser ([microscope/lasers/obis.py]) *)

Module Obis.

(** What one call of [connection.readline()] yields: the bytes of a line
    (with its terminator), or an exception of the serial library. *)
Inductive read_result : Type :=
| Line (data : list byte)
| ReadError.

Inductive level : Type := INFO | ERROR.

(** What a method does that is visible outside the object. *)
Inductive event : Type :=
| Wrote (data : list byte)          (* connection.write(data) *)
| Read (r : read_result)            (* connection.readline() *)
| Acquire                           (* _comms_lock taken *)
| Release                           (* _comms_lock given back *)
| SetAttr (name : string)           (* self.<name> = ... *)
| Log (lvl : level).                (* _logger.info / _logger.error *)

(** The instance: what the serial port will deliver to the coming
    [readline] calls, and the two cached powers (unset before [__init__]
    assigns them). *)
Record ObisLaser : Type := {
  incoming : list read_result;
  _max_power : option float;
  _min_power : option float;
}.

Definition set_incoming (l : list read_result) (s : ObisLaser) : ObisLaser :=
  {| incoming := l; _max_power := _max_power s; _min_power := _min_power s |}.

Definition set_max_power (p : float) (s : ObisLaser) : ObisLaser :=
  {| incoming := incoming s; _max_power := Some p; _min_power := _min_power s |}.

Definition set_min_power (p : float) (s : ObisLaser) : ObisLaser :=
  {| incoming := incoming s; _max_power := _max_power s; _min_power := Some p |}.

Definition M (A : Type) : Type := prog ObisLaser event A.

(** [self.connection.write(data)]. *)
Definition connection_write (data : list byte) : M unit := emit (Wrote data).

(** [self.connection.readline()]: the next line the port delivers; when
    nothing arrives before the timeout, the empty bytes. *)
Definition connection_readline : M (list byte) := fun s =>
  match incoming s with
  | [] => (Returns [], s, [Read (Line [])])
  | Line l :: rest => (Returns l, set_incoming rest s, [Read (Line l)])
  | ReadError :: rest =>
      (Raises SerialException, set_incoming rest s, [Read ReadError])
  end.

Definition log (lvl : level) : M unit := emit (Log lvl).

Definition crlf : list byte := [x0d; x0a].

(** Modelled from the spec: [SerialDeviceMixIn._write] is defined in
    [microscope/devices.py], which is not among the sources.  The serial
    protocol is "line-oriented ... (terminated by carriage-return/newline",
    so a command goes out followed by CR LF. *)
Definition _write (command : list byte) : M unit :=
  connection_write (command ++ crlf).

(** Modelled from the spec: [SerialDeviceMixIn.lock_comms] is defined in
    [microscope/devices.py], which is not among the sources.  It is "a
    single advisory lock serializing access to one communication channel
    per device instance": the decorated method runs with the instance's
    lock held, and the lock is given back however the method ends.  The
    lock is reentrant: [enable] holds it while it calls [get_is_on]. *)
Definition lock_comms {A} (func : M A) : M A := fun s =>
  match func s with
  | (r, s1, t1) => (r, s1, Acquire :: t1 ++ [Release])
  end.

(** [ObisLaser._readline] (obis.py, lines 86-104). *)
Definition _readline : M (list byte) :=
  line <- connection_readline ;;
  let response := strip line in
  if bytes_eqb response (b"OK") then ret response
  else if bytes_eqb (take 3 response) (b"ERR") then
    log ERROR ;; ret response
  else
    second <- try connection_readline ;;
    match second with
    | Raises _ => log ERROR ;; ret response
    | Returns line2 =>
        let handshake := strip line2 in
        (if bytes_eqb (take 3 handshake) (b"ERR") then log ERROR else ret tt) ;;
        ret response
    end.

(** Calls of [connection.readline()] in a log of effects. *)
Definition is_read (e : event) : bool :=
  match e with Read _ => true | _ => false end.

Definition reads (t : list event) : nat := length (List.filter is_read t).

(** What went out through [connection.write], in order. *)
Definition writes (t : list event) : list (list byte) :=
  omap (fun e => match e with Wrote d => Some d | _ => None end) t.

(** Assignments to [self.<name>] in a log of effects. *)
Definition is_assignment (name : string) (e : event) : bool :=
  match e with SetAttr n => String.eqb n name | _ => false end.

Definition assignments (name : string) (t : list event) : nat :=
  length (List.filter (is_assignment name) t).

(** Traffic on the serial channel. *)
Definition is_io (e : event) : bool :=
  match e with Wrote _ | Read _ => true | _ => false end.

(** Follow the lock's hold count through a log that starts with the lock
    held [depth] times: the count at the end, or [None] when some traffic
    happens with the lock free or the lock is released while free. *)
Fixpoint guarded (depth : nat) (t : list event) : option nat :=
  match t with
  | [] => Some depth
  | Acquire :: t' => guarded (S depth) t'
  | Release :: t' =>
      match depth with O => None | S d => guarded d t' end
  | e :: t' =>
      if is_io e && Nat.eqb depth 0 then None else guarded depth t'
  end.

(** Modelled from the spec: the lock itself ([threading.RLock], created
    in [microscope/devices.py], not among the sources) as "a single
    advisory lock": free, or held by one thread some number of times.
    A thread's [Acquire] goes through when the lock is free or already
    its own, its [Release] when it holds the lock; anything else on the
    lock cannot happen ([None]).  Other events do not touch the lock. *)
Definition lock_state : Type := option (nat * nat).

Definition lock_step (l : lock_state) (thread : nat) (e : event) : option lock_state :=
  match e with
  | Acquire =>
      match l with
      | None => Some (Some (thread, 1))
      | Some (owner, n) =>
          if Nat.eqb owner thread then Some (Some (owner, S n)) else None
      end
  | Release =>
      match l with
      | Some (owner, S n) =>
          if Nat.eqb owner thread
          then Some (match n with O => None | S _ => Some (owner, n) end)
          else None
      | _ => None
      end
  | _ => Some l
  end.

(** A schedule: the events of several threads on one instance, in the
    order they happen.  [lock_after] follows the lock through it. *)
Fixpoint lock_after (l : lock_state) (schedule : list (nat * event)) : option lock_state :=
  match schedule with
  | [] => Some l
  | (thread, e) :: rest =>
      match lock_step l thread e with
      | Some l' => lock_after l' rest
      | None => None
      end
  end.

(** What one thread does in a schedule. *)
Definition thread_log (thread : nat) (schedule : list (nat * event)) : list event :=
  map snd (List.filter (fun p => Nat.eqb (fst p) thread) schedule).

Definition holder (l : lock_state) : option nat :=
  match l with Some (owner, _) => Some owner | None => None end.

(** Each thread's hold count, as its own log gives it, against the
    lock: the holder's count is the lock's, everyone else's is zero. *)
Definition depths_agree (l : lock_state) (d : nat -> nat) : Prop :=
  forall th,
    d th = match l with
           | Some (owner, n) => if Nat.eqb owner th then n else 0
           | None => 0
           end.

(** A laser whose powers are cached, and a port that delivers the given
    lines, each ended by CR LF. *)
Definition laser (port : list read_result) : ObisLaser :=
  {| incoming := port; _max_power := Some 110%float; _min_power := Some 0%float |}.

Definition answers (lines : list string) : list read_result :=
  map (fun l => Line (b l ++ crlf)) lines.

(** The calibration values are left alone: same cached powers, and no
    assignment to either attribute. *)
Definition keeps_powers (s s' : ObisLaser) (t : list event) : Prop :=
  _max_power s' = _max_power s /\ _min_power s' = _min_power s /\
  assignments "_max_power" t = 0 /\ assignments "_min_power" t = 0.

(** Nothing goes out on the serial port. *)
Definition silent (_ _ : ObisLaser) (t : list event) : Prop := writes t = [].

(** Run with the lock already held, the log keeps its traffic under the
    lock and gives back exactly what it takes. *)
Definition inside_lock (_ _ : ObisLaser) (t : list event) : Prop :=
  forall d, guarded (S d) t = Some (S d).

Section Methods.
(** The Python runtime's conversions. *)
Variable decode : list byte -> option string.     (* bytes.decode() *)
Variable float_of_str : string -> option float.   (* float(str) *)
Variable format_5f : float -> list byte.          (* b'%.5f' % x *)

Definition decode_ (x : list byte) : M string := lift (decode x) UnicodeDecodeError.
Definition float_ (x : string) : M float := lift (float_of_str x) ValueError.

(** [self._write(cmd); response = self._readline();
     _logger.info(msg, response.decode())]. *)
Definition exchange_logged (cmd : list byte) : M unit :=
  _write cmd ;;
  response <- _readline ;;
  _ <- decode_ response ;;
  log INFO.

(** [ObisLaser.get_is_on] (lines 167-173). *)
Definition state_query : list byte := b"SOURce:AM:STATe?".

Definition get_is_on : M bool := lock_comms (
  _write state_query ;;
  response <- _readline ;;
  _ <- decode_ response ;;
  log INFO ;;
  ret (bytes_eqb response (b"ON"))).

(** [ObisLaser.get_status] (lines 106-117). *)
Definition status_queries : list (list byte * string) :=
  [ (b"SOURce:AM:STATe?", "Emission on?");
    (b"SOURce:POWer:LEVel:IMMediate:AMPLitude?", "Target power:");
    (b"SOURce:POWer:LEVel?", "Measured power:");
    (b"SYSTem:STATus?", "Status code?");
    (b"SYSTem:FAULt?", "Fault code?");
    (b"SYSTem:HOURs?", "Head operating hours:") ]%string.

Definition get_status : M (list string) := lock_comms (
  for_each (fun '(cmd, msg) =>
    _write cmd ;;
    response <- _readline ;;
    text <- decode_ response ;;
    ret (msg ++ " " ++ text)%string) status_queries).

(** [ObisLaser.enable] (lines 119-137). *)
Definition enable_commands : list (list byte) :=
  [ b"SOURce:TEMPerature:APRobe ON";
    b"SOURce:AM:STATe ON";
    b"SOURce:AM:EXTernal DIGital" ].

Definition enable : M bool := lock_comms (
  log INFO ;;
  _ <- for_each exchange_logged enable_commands ;;
  on <- get_is_on ;;
  if negb on then
    log ERROR ;;
    _ <- get_status ;;
    log ERROR ;;
    ret false
  else ret true).

(** [ObisLaser.disable] (lines 149-161). *)
Definition disable : M bool := lock_comms (
  log INFO ;;
  _write (b"SOURce:AM:STATe OFF") ;;
  _ <- _readline ;;
  on <- get_is_on ;;
  if on then
    log ERROR ;;
    _ <- get_status ;;
    log ERROR ;;
    ret false
  else ret true).

(** [ObisLaser._on_shutdown] (lines 139-144); it is not decorated. *)
Definition _on_shutdown : M unit :=
  _ <- disable ;;
  exchange_logged (b"SOURce:TEMPerature:APRobe OFF").

(** [ObisLaser.is_alive] (lines 163-165). *)
Definition is_alive : M bool := lock_comms get_is_on.

(** [self._write(cmd); power_w = self._readline();
     float(power_w.decode()) * 1000.0]. *)
Definition query_mw (cmd : list byte) : M float :=
  _write cmd ;;
  power_w <- _readline ;;
  text <- decode_ power_w ;;
  w <- float_ text ;;
  ret (w * 1000)%float.

(** [ObisLaser.get_min_power_mw] and [get_max_power_mw] (lines 175-186). *)
Definition get_min_power_mw : M float :=
  lock_comms (query_mw (b"SOURce:POWer:LIMit:LOW?")).

Definition get_max_power_mw : M float :=
  lock_comms (query_mw (b"SOURce:POWer:LIMit:HIGH?")).

(** [ObisLaser._get_power_mw] (lines 188-194). *)
Definition power_query : list byte := b"SOURce:POWer:LEVel?".

Definition _get_power_mw : M float := lock_comms (
  on <- get_is_on ;;
  if negb on then ret 0%float
  else query_mw power_query).

(** [ObisLaser.get_power_mw] (lines 196-199); it is not decorated. *)
Definition get_power_mw : M float :=
  on <- get_is_on ;;
  if negb on then ret 0%float
  else _get_power_mw.

(** Reading an attribute that was never assigned raises. *)
Definition attr (get : ObisLaser -> option float) (name : string) : M float :=
  s <- get_state ;;
  lift (get s) (AttributeError name).

(** [ObisLaser._set_power_mw] (lines 201-210).  [None] is Python's
    [None], returned when the request is dropped. *)
Definition amplitude_command : list byte :=
  b"SOURce:POWer:LEVel:IMMediate:AMPLitude ".

Definition _set_power_mw (mW : float) : M (option (list byte)) := lock_comms (
  max <- attr _max_power "_max_power" ;;
  if (max <? mW)%float then ret None
  else
    log INFO ;;
    let power_w := (mW / 1000)%float in
    _write (amplitude_command ++ format_5f power_w) ;;
    response <- _readline ;;
    _ <- decode_ response ;;
    log INFO ;;
    ret (Some response)).

(** [ObisLaser.__init__] (lines 32-75), from the assignment of
    [self.connection] on: the base classes' [__init__] has run and
    [serial.Serial] has opened the port. *)
Definition init_queries : list (list byte) :=
  [ b"SYSTem:COMMunicate:HANDshaking ON";
    b"SOURce:AM:STATe?";
    b"SYSTem:INFormation:MODel?";
    b"SYSTem:INFormation:SNUMber?";
    b"SYSTem:CDRH?";
    b"SOURce:TEMPerature:APRobe?";
    b"*TST?";
    b"SYSTem:AUTostart?" ].

Definition __init__ : M unit :=
  emit (SetAttr "connection") ;;
  _ <- for_each exchange_logged init_queries ;;
  max <- query_mw (b"SYSTem:INFormation:POWer?") ;;
  emit (SetAttr "_max_power") ;;
  modify (set_max_power max) ;;
  min <- query_mw (b"SOURce:POWer:LIMit:LOW?") ;;
  emit (SetAttr "_min_power") ;;
  modify (set_min_power min).

(** The object [__init__] starts from: the opened port and no cached
    power yet. *)
Definition fresh (port : list read_result) : ObisLaser :=
  {| incoming := port; _max_power := None; _min_power := None |}.


(** The decorated methods, as one type of calls, and the log of one
    call. *)
Inductive operation : Type :=
| Call_get_status
| Call_enable
| Call_disable
| Call_is_alive
| Call_get_is_on
| Call_get_min_power_mw
| Call_get_max_power_mw
| Call__get_power_mw
| Call__set_power_mw (mW : float).

Definition log_of (op : operation) (s : ObisLaser) : list event :=
  match op with
  | Call_get_status => effects (get_status s)
  | Call_enable => effects (enable s)
  | Call_disable => effects (disable s)
  | Call_is_alive => effects (is_alive s)
  | Call_get_is_on => effects (get_is_on s)
  | Call_get_min_power_mw => effects (get_min_power_mw s)
  | Call_get_max_power_mw => effects (get_max_power_mw s)
  | Call__get_power_mw => effects (_get_power_mw s)
  | Call__set_power_mw mW => effects (_set_power_mw mW s)
  end.

(** A thread that calls decorated methods one after the other, each on
    the instance as it then is, seen at some moment: its log so far is
    the start of the calls' logs put end to end. *)
Definition calls_methods (log : list event) : Prop :=
  exists (calls : list (operation * ObisLaser)) (later : list event),
    log ++ later = concat (map (fun c => log_of c.1 c.2) calls).


(** *** [_readline] and the handshake line *)

Example _readline_ok_example :
  _readline (fresh [Line (b"OK" ++ crlf); Line (b"next")])
  = (Returns (b"OK"), fresh [Line (b"next")], [Read (Line (b"OK" ++ crlf))]).
Proof. reflexivity. Qed.

Example _readline_value_example :
  outcome (_readline (fresh [Line (b" 0.05" ++ crlf); Line (b"OK" ++ crlf); Line (b"next")]))
  = Returns (b"0.05").
Proof. reflexivity. Qed.

(** C1.  Whatever line the port delivers, [_readline] returns it with
    the whitespace at both ends removed.  When the stripped response is
    [b'OK'] or starts with [b'ERR'], that one [readline] call is the
    only one and what follows in the port is left there; otherwise
    exactly one more [readline] call is made, it consumes the next
    delivery, and the response returned is still the first line's. *)
Theorem _readline_handshake (line : list byte) (rest : list read_result)
    (s : ObisLaser) :
  let response := strip line in
  let run := _readline (set_incoming (Line line :: rest) s) in
  outcome run = Returns response /\
  stripped_of line response /\
  if bytes_eqb response (b"OK") || bytes_eqb (take 3 response) (b"ERR")
  then incoming (final run) = rest /\ reads (effects run) = 1
  else incoming (final run) = drop 1 rest /\ reads (effects run) = 2.
Proof.
  intros response run.
  assert (H : outcome run = Returns response /\
              if bytes_eqb response (b"OK") || bytes_eqb (take 3 response) (b"ERR")
              then incoming (final run) = rest /\ reads (effects run) = 1
              else incoming (final run) = drop 1 rest /\ reads (effects run) = 2).
  { subst run.
    unfold _readline, bind, try, connection_readline, log, emit, ret,
      outcome, final, effects, reads.
    cbn [incoming set_incoming fst snd]. fold response.
    destruct (bytes_eqb response (b"OK")) eqn:Hok; cbn; [auto|].
    destruct (bytes_eqb (take 3 response) (b"ERR")) eqn:Herr; cbn; [auto|].
    destruct rest as [|[line2|] rest']; cbn; auto.
    destruct (bytes_eqb (take 3 (strip line2)) (b"ERR")); cbn; auto. }
  destruct H as [Hout Hreads].
  split; [exact Hout|]. split; [apply strip_spec | exact Hreads].
Qed.

(** *** What every run of a method keeps *)

Lemma assignments_app name t1 t2 :
  assignments name (t1 ++ t2) = assignments name t1 + assignments name t2.
Proof. unfold assignments. now rewrite List.filter_app, length_app. Qed.

Lemma assignments_cons name e t :
  assignments name (e :: t)
  = (if is_assignment name e then 1 else 0) + assignments name t.
Proof. unfold assignments. cbn. now destruct (is_assignment name e). Qed.

Lemma writes_app t1 t2 : writes (t1 ++ t2) = writes t1 ++ writes t2.
Proof. unfold writes. apply omap_app. Qed.

Lemma reads_app t1 t2 : reads (t1 ++ t2) = reads t1 + reads t2.
Proof. unfold reads. now rewrite List.filter_app, length_app. Qed.

Lemma guarded_app d t1 t2 :
  guarded d (t1 ++ t2) = match guarded d t1 with
                         | Some d' => guarded d' t2
                         | None => None
                         end.
Proof.
  revert d; induction t1 as [|e t1 IH]; intros d; [reflexivity|].
  destruct e; simpl; try apply IH.
  - destruct (Nat.eqb d 0); [reflexivity | apply IH].
  - destruct (Nat.eqb d 0); [reflexivity | apply IH].
  - destruct d; [reflexivity | apply IH].
Qed.

Lemma keeps_powers_refl s : keeps_powers s s [].
Proof. now repeat split. Qed.

Lemma keeps_powers_trans s1 s2 s3 t1 t2 :
  keeps_powers s1 s2 t1 -> keeps_powers s2 s3 t2 -> keeps_powers s1 s3 (t1 ++ t2).
Proof.
  intros (Ha & Hb & Hc & Hd) (Ha' & Hb' & Hc' & Hd').
  repeat split; rewrite ?assignments_app; try congruence; lia.
Qed.

Lemma silent_refl s : silent s s [].
Proof. reflexivity. Qed.

Lemma silent_trans s1 s2 s3 t1 t2 :
  silent s1 s2 t1 -> silent s2 s3 t2 -> silent s1 s3 (t1 ++ t2).
Proof. unfold silent. intros H1 H2. now rewrite writes_app, H1, H2. Qed.

Lemma inside_lock_refl s : inside_lock s s [].
Proof. intros d. reflexivity. Qed.

Lemma inside_lock_trans s1 s2 s3 t1 t2 :
  inside_lock s1 s2 t1 -> inside_lock s2 s3 t2 -> inside_lock s1 s3 (t1 ++ t2).
Proof. intros H1 H2 d. now rewrite guarded_app, H1, H2. Qed.

(** The primitive steps. *)

Lemma readline_keeps_powers : always keeps_powers connection_readline.
Proof.
  intros s. unfold connection_readline.
  destruct (incoming s) as [|[l|] rest]; now repeat split.
Qed.

Lemma readline_silent : always silent connection_readline.
Proof.
  intros s. unfold connection_readline.
  destruct (incoming s) as [|[l|] rest]; reflexivity.
Qed.

Lemma readline_inside_lock : always inside_lock connection_readline.
Proof.
  intros s d. unfold connection_readline.
  destruct (incoming s) as [|[l|] rest]; reflexivity.
Qed.

Lemma log_keeps_powers lvl : always keeps_powers (log lvl).
Proof. intros s. now repeat split. Qed.

Lemma log_silent lvl : always silent (log lvl).
Proof. intros s. reflexivity. Qed.

Lemma log_inside_lock lvl : always inside_lock (log lvl).
Proof. intros s d. reflexivity. Qed.

Lemma _write_keeps_powers cmd : always keeps_powers (_write cmd).
Proof. intros s. now repeat split. Qed.

Lemma _write_inside_lock cmd : always inside_lock (_write cmd).
Proof. intros s d. reflexivity. Qed.

Lemma lock_comms_keeps_powers {A} (func : M A) :
  always keeps_powers func -> always keeps_powers (lock_comms func).
Proof.
  intros H s. specialize (H s). unfold lock_comms.
  destruct (func s) as [[r s1] t1]. cbn [effects final fst snd] in *.
  destruct H as (Ha & Hb & Hc & Hd). repeat split; trivial.
  - change (Acquire :: t1 ++ [Release]) with ([Acquire] ++ t1 ++ [Release]).
    rewrite !assignments_app, Hc. reflexivity.
  - change (Acquire :: t1 ++ [Release]) with ([Acquire] ++ t1 ++ [Release]).
    rewrite !assignments_app, Hd. reflexivity.
Qed.

Lemma lock_comms_silent {A} (func : M A) :
  always silent func -> always silent (lock_comms func).
Proof.
  intros H s. specialize (H s). unfold lock_comms, silent in *.
  destruct (func s) as [[r s1] t1]. cbn [effects final fst snd] in *.
  change (Acquire :: t1 ++ [Release]) with ([Acquire] ++ t1 ++ [Release]).
  rewrite !writes_app, H. reflexivity.
Qed.

Lemma lock_comms_inside_lock {A} (func : M A) :
  always inside_lock func -> always inside_lock (lock_comms func).
Proof.
  intros H s d. specialize (H s (S d)). unfold lock_comms.
  destruct (func s) as [[r s1] t1]. cbn [effects final fst snd guarded] in *.
  rewrite guarded_app, H. reflexivity.
Qed.

(** A decorated method, called with the lock free, takes it before any
    traffic and has given it back when it ends. *)
Lemma lock_comms_guarded {A} (func : M A) (s : ObisLaser) :
  always inside_lock func -> guarded 0 (effects (lock_comms func s)) = Some 0.
Proof.
  intros H. specialize (H s 0). unfold lock_comms.
  destruct (func s) as [[r s1] t1]. cbn [effects final fst snd guarded] in *.
  rewrite guarded_app, H. reflexivity.
Qed.

Create HintDb obis discriminated.

Ltac run_always refl trans :=
  repeat first
    [ apply (always_ret _ refl)
    | apply (always_raise _ refl)
    | apply (always_get_state _ refl)
    | apply (always_lift _ refl)
    | apply always_try
    | apply (always_for_each _ refl trans); intros ?
    | apply (always_bind _ trans); [|intros ?]
    | match goal with
      | |- always _ (if ?c then _ else _) => destruct c
      | |- always _ (match ?x with _ => _ end) => destruct x
      end
    | solve [auto with obis]
    | progress unfold decode_, float_, attr, exchange_logged, query_mw ].

Ltac keeps := run_always keeps_powers_refl keeps_powers_trans.
Ltac quiet := run_always silent_refl silent_trans.
Ltac locked := run_always inside_lock_refl inside_lock_trans.

Hint Resolve readline_keeps_powers log_keeps_powers _write_keeps_powers
  readline_silent log_silent
  readline_inside_lock log_inside_lock _write_inside_lock : obis.

Lemma _readline_keeps_powers : always keeps_powers _readline.
Proof. unfold _readline. keeps. Qed.

Lemma _readline_silent : always silent _readline.
Proof. unfold _readline. quiet. Qed.

Lemma _readline_inside_lock : always inside_lock _readline.
Proof. unfold _readline. locked. Qed.

Hint Resolve _readline_keeps_powers _readline_silent _readline_inside_lock : obis.

Lemma get_is_on_keeps_powers : always keeps_powers get_is_on.
Proof. apply lock_comms_keeps_powers. keeps. Qed.

Lemma get_is_on_body_inside_lock : always inside_lock get_is_on.
Proof. apply lock_comms_inside_lock. locked. Qed.

Hint Resolve get_is_on_keeps_powers get_is_on_body_inside_lock : obis.

Lemma get_status_keeps_powers : always keeps_powers get_status.
Proof. apply lock_comms_keeps_powers. keeps. Qed.

Lemma get_status_inside_lock : always inside_lock get_status.
Proof. apply lock_comms_inside_lock. locked. Qed.

Hint Resolve get_status_keeps_powers get_status_inside_lock : obis.

Lemma enable_keeps_powers : always keeps_powers enable.
Proof. apply lock_comms_keeps_powers. keeps. Qed.

Lemma disable_keeps_powers : always keeps_powers disable.
Proof. apply lock_comms_keeps_powers. keeps. Qed.

Lemma is_alive_keeps_powers : always keeps_powers is_alive.
Proof. apply lock_comms_keeps_powers. keeps. Qed.

Lemma get_min_power_mw_keeps_powers : always keeps_powers get_min_power_mw.
Proof. apply lock_comms_keeps_powers. keeps. Qed.

Lemma get_max_power_mw_keeps_powers : always keeps_powers get_max_power_mw.
Proof. apply lock_comms_keeps_powers. keeps. Qed.

Lemma _get_power_mw_keeps_powers : always keeps_powers _get_power_mw.
Proof. apply lock_comms_keeps_powers. keeps. Qed.

Hint Resolve _get_power_mw_keeps_powers : obis.

Lemma get_power_mw_keeps_powers : always keeps_powers get_power_mw.
Proof. unfold get_power_mw. keeps. Qed.

Lemma _set_power_mw_keeps_powers mW : always keeps_powers (_set_power_mw mW).
Proof. apply lock_comms_keeps_powers. keeps. Qed.

(** *** Reading and setting the power *)

Lemma bind_write {A} (cmd : list byte) (k : unit -> M A) (s : ObisLaser) :
  bind (_write cmd) k s
  = (outcome (k tt s), final (k tt s), Wrote (cmd ++ crlf) :: effects (k tt s)).
Proof. unfold bind, _write, connection_write, emit. now destruct (k tt s) as [[r s1] t1]. Qed.

Lemma bind_log {A} (lvl : level) (k : unit -> M A) (s : ObisLaser) :
  bind (log lvl) k s
  = (outcome (k tt s), final (k tt s), Log lvl :: effects (k tt s)).
Proof. unfold bind, log, emit. now destruct (k tt s) as [[r s1] t1]. Qed.

Lemma lock_comms_run {A} (func : M A) (s : ObisLaser) :
  lock_comms func s
  = (outcome (func s), final (func s), Acquire :: effects (func s) ++ [Release]).
Proof. unfold lock_comms. now destruct (func s) as [[r s1] t1]. Qed.

Lemma writes_wrote (d : list byte) (t : list event) :
  writes (Wrote d :: t) = d :: writes t.
Proof. reflexivity. Qed.

(** [get_is_on] sends the state query and nothing else. *)
Lemma get_is_on_writes (s : ObisLaser) :
  writes (effects (get_is_on s)) = [state_query ++ crlf].
Proof.
  unfold get_is_on. rewrite lock_comms_run, bind_write. cbn [effects snd].
  change (Acquire :: ?t ++ [Release]) with ([Acquire] ++ t ++ [Release]).
  match goal with |- context [effects (?k s)] =>
    assert (Hq : always silent k) by quiet; specialize (Hq s) end.
  unfold silent in Hq.
  now rewrite !writes_app, writes_wrote, Hq.
Qed.

(** C8.  [get_power_mw] asks the laser whether it is emitting.  When the
    answer is no, it returns 0.0 and only the state query has gone out.
    When the answer is yes, [_get_power_mw] asks once more under the
    lock: a no at this second check also gives 0.0, again with no power
    query sent; after two yeses the power query goes out and the value
    returned is the reported level (in watts) times 1000. *)
Theorem get_power_mw_reports (s : ObisLaser) :
  (forall s1 t1,
      get_is_on s = (Returns false, s1, t1) ->
      get_power_mw s = (Returns 0%float, s1, t1)
      /\ writes t1 = [state_query ++ crlf]) /\
  (forall s1 t1 s2 t2,
      get_is_on s = (Returns true, s1, t1) ->
      get_is_on s1 = (Returns false, s2, t2) ->
      let t := t1 ++ Acquire :: t2 ++ [Release] in
      get_power_mw s = (Returns 0%float, s2, t)
      /\ writes t = [state_query ++ crlf; state_query ++ crlf]) /\
  (forall s1 t1 s2 t2 response s3 t3 text w,
      get_is_on s = (Returns true, s1, t1) ->
      get_is_on s1 = (Returns true, s2, t2) ->
      _readline s2 = (Returns response, s3, t3) ->
      decode response = Some text ->
      float_of_str text = Some w ->
      let t := t1 ++ Acquire :: (t2 ++ Wrote (power_query ++ crlf) :: t3)
                  ++ [Release] in
      get_power_mw s = (Returns (w * 1000)%float, s3, t)
      /\ writes t = [state_query ++ crlf; state_query ++ crlf;
                     power_query ++ crlf]).
Proof.
  split; [|split].
  - intros s1 t1 H1. split.
    + unfold get_power_mw. rewrite (bind_returns _ _ _ _ _ _ H1).
      cbn. now rewrite app_nil_r.
    + pose proof (get_is_on_writes s) as Hw. now rewrite H1 in Hw.
  - intros s1 t1 s2 t2 H1 H2 t. subst t. split.
    + unfold get_power_mw. rewrite (bind_returns _ _ _ _ _ _ H1).
      cbn [negb]. unfold _get_power_mw. rewrite lock_comms_run.
      rewrite (bind_returns _ _ _ _ _ _ H2). cbn. now rewrite app_nil_r.
    + pose proof (get_is_on_writes s) as Hw1. rewrite H1 in Hw1.
      pose proof (get_is_on_writes s1) as Hw2. rewrite H2 in Hw2.
      cbn [effects snd] in Hw1, Hw2.
      change (Acquire :: t2 ++ [Release]) with ([Acquire] ++ t2 ++ [Release]).
      now rewrite !writes_app, Hw1, Hw2.
  - intros s1 t1 s2 t2 response s3 t3 text w H1 H2 H3 Hd Hf t. subst t.
    assert (Hq : query_mw power_query s2
                 = (Returns (w * 1000)%float, s3,
                    Wrote (power_query ++ crlf) :: t3)).
    { unfold query_mw. rewrite bind_write.
      rewrite (bind_returns _ _ _ _ _ _ H3).
      unfold decode_, float_. rewrite Hd. cbn. rewrite Hf. cbn.
      now rewrite app_nil_r. }
    split.
    + unfold get_power_mw. rewrite (bind_returns _ _ _ _ _ _ H1).
      cbn [negb]. unfold _get_power_mw. rewrite lock_comms_run.
      rewrite (bind_returns _ _ _ _ _ _ H2). cbn [negb]. rewrite Hq.
      reflexivity.
    + pose proof (get_is_on_writes s) as Hw1. rewrite H1 in Hw1.
      pose proof (get_is_on_writes s1) as Hw2. rewrite H2 in Hw2.
      pose proof (_readline_silent s2) as Hw3. rewrite H3 in Hw3.
      unfold silent in Hw3. cbn [effects snd] in Hw1, Hw2, Hw3.
      change (Acquire :: ?x ++ [Release]) with ([Acquire] ++ x ++ [Release]).
      now rewrite !writes_app, writes_wrote, Hw1, Hw2, Hw3.
Qed.

(** C9.  With the maximum power cached as [max]: a request above it
    returns [None] with the lock taken and given back and nothing else
    done, so no command reaches the laser and the object is as before;
    a request at or below it sends exactly one command, the amplitude
    command carrying [mW / 1000] printed with five decimals. *)
Theorem _set_power_mw_limit (mW max : float) (s : ObisLaser) :
  _max_power s = Some max ->
  ((max <? mW)%float = true ->
     _set_power_mw mW s = (Returns None, s, [Acquire; Release])) /\
  ((mW <=? max)%float = true ->
     writes (effects (_set_power_mw mW s))
     = [amplitude_command ++ format_5f (mW / 1000)%float ++ crlf]).
Proof.
  intros Hmax. split; intros Hcmp.
  - unfold _set_power_mw. rewrite lock_comms_run.
    unfold attr, bind, get_state, lift. rewrite Hmax. cbn. rewrite Hcmp.
    reflexivity.
  - apply leb_not_ltb in Hcmp.
    unfold _set_power_mw. rewrite lock_comms_run.
    assert (Ha : attr _max_power "_max_power" s = (Returns max, s, [])).
    { unfold attr, bind, get_state, lift. now rewrite Hmax. }
    rewrite (bind_returns _ _ _ _ _ _ Ha). rewrite Hcmp.
    rewrite bind_log, bind_write. cbn [effects snd app].
    match goal with |- context [effects (?k s)] =>
      assert (Hq : always silent k) by quiet; specialize (Hq s) end.
    unfold silent in Hq.
    change (writes (Acquire :: Log INFO :: Wrote ?c :: ?t))
      with (c :: writes t).
    rewrite writes_app, Hq, <- app_assoc. reflexivity.
Qed.

(** *** [__init__] and the cached powers *)

Lemma for_each_keeps_powers {A} (body : list byte -> M A) (l : list (list byte)) :
  (forall x, always keeps_powers (body x)) ->
  always keeps_powers (for_each body l).
Proof. intros H. keeps. Qed.

Lemma query_mw_keeps_powers cmd : always keeps_powers (query_mw cmd).
Proof. keeps. Qed.

Lemma exchange_logged_keeps_powers cmd : always keeps_powers (exchange_logged cmd).
Proof. keeps. Qed.

(** [__init__] assigns each cached power at most once, and exactly once
    when it returns; both are then set. *)
Lemma __init__assigns_once (port : list read_result) :
  let run := __init__ (fresh port) in
  assignments "_max_power" (effects run) <= 1 /\
  assignments "_min_power" (effects run) <= 1 /\
  (outcome run = Returns tt ->
   assignments "_max_power" (effects run) = 1 /\
   assignments "_min_power" (effects run) = 1 /\
   is_Some (_max_power (final run)) /\ is_Some (_min_power (final run))).
Proof.
  intros run. subst run. unfold __init__.
  rewrite bind_emit.
  pose proof (for_each_keeps_powers exchange_logged init_queries
                exchange_logged_keeps_powers (fresh port)) as H1.
  destruct (for_each exchange_logged init_queries (fresh port))
    as [[[u1|e1] s1] t1] eqn:E1; cbn [final effects fst snd] in H1;
    destruct H1 as (_ & _ & H1a & H1b).
  2:{ rewrite (bind_raises _ _ _ _ _ _ E1). cbn [outcome final effects fst snd].
      rewrite !assignments_cons, H1a, H1b.
      split; [|split]; [cbn; lia | cbn; lia | discriminate]. }
  rewrite (bind_returns _ _ _ _ _ _ E1).
  pose proof (query_mw_keeps_powers (b"SYSTem:INFormation:POWer?") s1) as H2.
  destruct (query_mw (b"SYSTem:INFormation:POWer?") s1)
    as [[[max|e2] s2] t2] eqn:E2; cbn [final effects fst snd] in H2;
    destruct H2 as (_ & _ & H2a & H2b).
  2:{ rewrite (bind_raises _ _ _ _ _ _ E2). cbn [outcome final effects fst snd].
      rewrite !assignments_cons, !assignments_app, H1a, H1b, H2a, H2b.
      split; [|split]; [cbn; lia | cbn; lia | discriminate]. }
  rewrite (bind_returns _ _ _ _ _ _ E2), bind_emit, bind_modify.
  pose proof (query_mw_keeps_powers (b"SOURce:POWer:LIMit:LOW?")
                (set_max_power max s2)) as H3.
  destruct (query_mw (b"SOURce:POWer:LIMit:LOW?") (set_max_power max s2))
    as [[[min|e3] s3] t3] eqn:E3; cbn [final effects fst snd] in H3;
    destruct H3 as (H3m & _ & H3a & H3b).
  2:{ rewrite (bind_raises _ _ _ _ _ _ E3). cbn [outcome final effects fst snd].
      rewrite !assignments_cons, !assignments_app, !assignments_cons,
        H1a, H1b, H2a, H2b, H3a, H3b.
      split; [|split]; [cbn; lia | cbn; lia | discriminate]. }
  rewrite (bind_returns _ _ _ _ _ _ E3), bind_emit.
  cbn [outcome final effects fst snd modify].
  rewrite !assignments_cons, !assignments_app, !assignments_cons,
    !assignments_app, !assignments_cons, H1a, H1b, H2a, H2b, H3a, H3b.
  split; [|split]; [cbn; lia | cbn; lia |].
  intros _. repeat split; cbn; try lia.
  - rewrite H3m. cbn. eauto.
  - eauto.
Qed.

(** *** The communication lock *)

Lemma log_of_guarded (op : operation) (s : ObisLaser) :
  guarded 0 (log_of op s) = Some 0.
Proof.
  destruct op; cbn [log_of]; apply lock_comms_guarded; locked.
Qed.

Lemma calls_guarded (calls : list (operation * ObisLaser)) :
  guarded 0 (concat (map (fun c => log_of c.1 c.2) calls)) = Some 0.
Proof.
  induction calls as [|c calls IH]; [reflexivity|].
  cbn [map concat]. now rewrite guarded_app, log_of_guarded.
Qed.

Lemma calls_methods_guarded (log : list event) :
  calls_methods log -> guarded 0 log <> None.
Proof.
  intros (calls & later & H) Hnone.
  pose proof (calls_guarded calls) as Hg.
  rewrite <- H, guarded_app, Hnone in Hg. discriminate.
Qed.

Lemma guarded_cons d e t :
  guarded d (e :: t) = match guarded d [e] with
                       | Some d' => guarded d' t
                       | None => None
                       end.
Proof. apply (guarded_app d [e] t). Qed.

Lemma thread_log_cons th th0 e0 rest :
  thread_log th ((th0, e0) :: rest)
  = if Nat.eqb th0 th then e0 :: thread_log th rest else thread_log th rest.
Proof. unfold thread_log. cbn. now destruct (Nat.eqb th0 th). Qed.

(** One step of a schedule keeps the agreement. *)
Lemma lock_step_agree l d th0 e0 l1 d0 :
  depths_agree l d ->
  lock_step l th0 e0 = Some l1 ->
  guarded (d th0) [e0] = Some d0 ->
  depths_agree l1 (fun x => if Nat.eqb th0 x then d0 else d x).
Proof.
  intros Hd Hstep Hg x.
  pose proof (Hd th0) as H0. pose proof (Hd x) as Hx.
  destruct e0; cbn in Hstep, Hg;
    try (destruct (Nat.eqb (d th0) 0); [discriminate|]);
    try (injection Hstep as <-; injection Hg as <-;
         destruct (Nat.eqb_spec th0 x); [now subst | exact Hx]).
  - (* Acquire *)
    injection Hg as <-.
    destruct l as [[owner n]|].
    + destruct (Nat.eqb_spec owner th0) as [->|Hne]; [|discriminate].
      injection Hstep as <-. rewrite ?Nat.eqb_refl in H0.
      destruct (Nat.eqb_spec th0 x); [now rewrite H0 | exact Hx].
    + injection Hstep as <-.
      destruct (Nat.eqb_spec th0 x); [now rewrite H0 | exact Hx].
  - (* Release *)
    destruct (d th0) as [|d'] eqn:Hdepth; [discriminate|]. injection Hg as <-.
    destruct l as [[owner [|n]]|]; try discriminate.
    destruct (Nat.eqb_spec owner th0) as [->|Hne]; [|discriminate].
    rewrite ?Nat.eqb_refl in H0. injection H0 as ->.
    injection Hstep as <-.
    destruct (Nat.eqb_spec th0 x) as [->|Hne].
    + destruct n; [reflexivity | now rewrite Nat.eqb_refl].
    + rewrite Hx. destruct n; [reflexivity|].
      apply Nat.eqb_neq in Hne. now rewrite Hne.
Qed.

Lemma io_under_lock (schedule : list (nat * event)) :
  forall (l : lock_state) (d : nat -> nat),
    depths_agree l d ->
    (forall th, guarded (d th) (thread_log th schedule) <> None) ->
    lock_after l schedule <> None ->
    forall before th e after,
      schedule = before ++ (th, e) :: after ->
      is_io e = true ->
      exists l', lock_after l before = Some l' /\ holder l' = Some th.
Proof.
  induction schedule as [|[th0 e0] rest IH]; intros l d Hd Hlogs Hadm
    before th e after Hsplit Hio.
  { now destruct before. }
  destruct before as [|[th1 e1] before'].
  - injection Hsplit as -> -> ->. exists l. split; [reflexivity|].
    specialize (Hlogs th). rewrite thread_log_cons, Nat.eqb_refl in Hlogs.
    specialize (Hd th).
    destruct (d th) as [|n] eqn:Hdepth.
    + exfalso. apply Hlogs. destruct e; try discriminate; reflexivity.
    + destruct l as [[owner m]|]; [|discriminate].
      destruct (Nat.eqb_spec owner th); [now subst | discriminate].
  - injection Hsplit as <- <- ->.
    cbn [lock_after app] in Hadm |- *.
    destruct (lock_step l th0 e0) as [l1|] eqn:Hstep; [|contradiction].
    pose proof (Hlogs th0) as H0.
    rewrite thread_log_cons, Nat.eqb_refl, guarded_cons in H0.
    destruct (guarded (d th0) [e0]) as [d0|] eqn:Hg; [|contradiction].
    apply (IH l1 (fun x => if Nat.eqb th0 x then d0 else d x))
      with (e := e) (after := after); trivial.
    + eapply lock_step_agree; eauto.
    + intros x. specialize (Hlogs x). rewrite thread_log_cons in Hlogs.
      destruct (Nat.eqb_spec th0 x) as [->|Hne]; [exact H0 | exact Hlogs].
Qed.

(** C6 (as amended).  Each of the nine decorated methods, called with the lock free,
    takes the instance's lock before its first byte goes out or comes
    in, keeps all its traffic under the lock, and has given the lock
    back when it ends, however it ends.  Hence, for threads that call
    these methods on one instance, in every order of events the lock
    allows, a thread writes to or reads from the serial channel only
    while it is the lock's holder. *)
Theorem lock_comms_serializes :
  (forall (op : operation) (s : ObisLaser), guarded 0 (log_of op s) = Some 0) /\
  (forall schedule : list (nat * event),
      (forall th, calls_methods (thread_log th schedule)) ->
      is_Some (lock_after None schedule) ->
      forall before th e after,
        schedule = before ++ (th, e) :: after ->
        is_io e = true ->
        exists l, lock_after None before = Some l /\ holder l = Some th).
Proof.
  split; [apply log_of_guarded|].
  intros schedule Hcalls [l Hadm] before th e after Hsplit Hio.
  apply (io_under_lock schedule None (fun _ => 0)) with (e := e) (after := after);
    trivial.
  - intros x. reflexivity.
  - intros x. apply calls_methods_guarded, Hcalls.
  - now rewrite Hadm.
Qed.

(** *** Failures while reading *)

(** X1.  A failure of the first [readline] reaches the caller.  A
    failure of the second one, the handshake's, is only logged, and so is
    a handshake line that starts with [ERR]: the first response is
    returned all the same.  When nothing arrives at all, both reads time
    out and the empty bytes are returned. *)
Theorem _readline_failures (s : ObisLaser) (rest : list read_result) :
  _readline (set_incoming (ReadError :: rest) s)
  = (Raises SerialException, set_incoming rest s, [Read ReadError]) /\
  _readline (set_incoming [] s)
  = (Returns [], set_incoming [] s, [Read (Line []); Read (Line [])]) /\
  (forall line,
     bytes_eqb (strip line) (b"OK") = false ->
     bytes_eqb (take 3 (strip line)) (b"ERR") = false ->
     _readline (set_incoming (Line line :: ReadError :: rest) s)
     = (Returns (strip line), set_incoming rest s,
        [Read (Line line); Read ReadError; Log ERROR])
     /\ forall line2,
          bytes_eqb (take 3 (strip line2)) (b"ERR") = true ->
          _readline (set_incoming (Line line :: Line line2 :: rest) s)
          = (Returns (strip line), set_incoming rest s,
             [Read (Line line); Read (Line line2); Log ERROR])).
Proof.
  split; [reflexivity|]. split; [reflexivity|].
  intros line Hok Herr.
  unfold _readline, bind, try, connection_readline, log, emit, ret.
  cbn [incoming set_incoming]. rewrite Hok, Herr. cbn [incoming set_incoming].
  split; [reflexivity|].
  intros line2 Herr2. rewrite Herr2. reflexivity.
Qed.

(** *** What the methods send *)

(** A loop whose every round sends one command has sent them all, in
    order, when it returns, and a first part of them however it ends. *)
Lemma for_each_writes {A B} (body : A -> M B) (w : A -> list byte) :
  (forall x s, writes (effects (body x s)) = [w x]) ->
  forall l s,
    writes (effects (for_each body l s)) `prefix_of` map w l /\
    (forall v, outcome (for_each body l s) = Returns v ->
               writes (effects (for_each body l s)) = map w l /\ length v = length l).
Proof.
  intros Hbody. induction l as [|x l IH]; intros s.
  { split; [reflexivity|]. intros v [= <-]. now split. }
  cbn [for_each map]. specialize (Hbody x s).
  destruct (body x s) as [[[y|e] s1] t1] eqn:E1; cbn [effects snd] in Hbody.
  2:{ rewrite (bind_raises _ _ _ _ _ _ E1). cbn [effects outcome fst snd].
      rewrite Hbody. split; [|discriminate].
      now exists (map w l). }
  rewrite (bind_returns _ _ _ _ _ _ E1). cbn [effects outcome fst snd].
  destruct (IH s1) as [Hpre Hall].
  destruct (for_each body l s1) as [[[ys|e] s2] t2] eqn:E2;
    cbn [effects outcome fst snd] in Hpre, Hall.
  - rewrite (bind_returns _ _ _ _ _ _ E2). cbn [effects outcome fst snd ret].
    rewrite app_nil_r, writes_app, Hbody.
    destruct (Hall ys eq_refl) as [Hw Hlen]. rewrite Hw.
    split; [reflexivity|]. intros v [= <-]. split; [reflexivity|]. cbn. now rewrite Hlen.
  - rewrite (bind_raises _ _ _ _ _ _ E2). cbn [effects outcome fst snd].
    rewrite writes_app, Hbody. split; [|discriminate].
    destruct Hpre as [k Hk]. exists k. cbn. now rewrite Hk.
Qed.

Lemma exchange_logged_writes (cmd : list byte) (s : ObisLaser) :
  writes (effects (exchange_logged cmd s)) = [cmd ++ crlf].
Proof.
  unfold exchange_logged. rewrite bind_write. cbn [effects snd].
  match goal with |- context [effects (?k s)] =>
    assert (Hq : always silent k) by quiet; specialize (Hq s) end.
  unfold silent in Hq. now rewrite writes_wrote, Hq.
Qed.

Lemma status_round_writes (q : list byte * string) (s : ObisLaser) :
  writes (effects ((let '(cmd, msg) := q in
                    _write cmd ;;
                    response <- _readline ;;
                    text <- decode_ response ;;
                    ret (msg ++ " " ++ text)%string) s)) = [q.1 ++ crlf].
Proof.
  destruct q as [cmd msg]. rewrite bind_write. cbn [effects snd fst].
  match goal with |- context [effects (?k s)] =>
    assert (Hq : always silent k) by quiet; specialize (Hq s) end.
  unfold silent in Hq. now rewrite writes_wrote, Hq.
Qed.

(** [get_status] has sent its six queries when it returns, and a first
    part of them however it ends. *)
Lemma get_status_writes (s : ObisLaser) :
  writes (effects (get_status s)) `prefix_of` map (fun q => q.1 ++ crlf) status_queries /\
  (forall v, outcome (get_status s) = Returns v ->
             writes (effects (get_status s)) = map (fun q => q.1 ++ crlf) status_queries
             /\ length v = 6).
Proof.
  unfold get_status. rewrite lock_comms_run. cbn [effects outcome fst snd].
  change (Acquire :: ?t ++ [Release]) with ([Acquire] ++ t ++ [Release]).
  rewrite !writes_app. cbn [writes omap app]. rewrite app_nil_r.
  exact (for_each_writes _ (fun q => q.1 ++ crlf) status_round_writes status_queries s).
Qed.

Lemma writes_acquire t : writes (Acquire :: t) = writes t.
Proof. reflexivity. Qed.

Lemma writes_release t : writes (Release :: t) = writes t.
Proof. reflexivity. Qed.

Lemma writes_log lvl t : writes (Log lvl :: t) = writes t.
Proof. reflexivity. Qed.

Lemma writes_nil : writes [] = [].
Proof. reflexivity. Qed.

Ltac sent :=
  repeat first
    [ rewrite writes_app | rewrite writes_wrote | rewrite writes_acquire
    | rewrite writes_release | rewrite writes_log | rewrite writes_nil
    | rewrite app_nil_r ].

(** The part of [enable] and [disable] that follows the switching
    commands: ask the state and, when it is not the wanted one, log the
    status. *)
Lemma check_state_writes (bad : bool -> bool) (s : ObisLaser) :
  let run := (on <- get_is_on ;;
              if bad on then
                log ERROR ;; _ <- get_status ;; log ERROR ;; ret false
              else ret true) s in
  (outcome run = Returns true -> writes (effects run) = [state_query ++ crlf]) /\
  (outcome run = Returns false ->
   writes (effects run)
   = (state_query ++ crlf) :: map (fun q => q.1 ++ crlf) status_queries).
Proof.
  intros run. subst run.
  pose proof (get_is_on_writes s) as Hw.
  destruct (get_is_on s) as [[[on|e] s1] t1] eqn:E1; cbn [effects snd] in Hw.
  2:{ rewrite (bind_raises _ _ _ _ _ _ E1). split; discriminate. }
  rewrite (bind_returns _ _ _ _ _ _ E1).
  destruct (bad on).
  - rewrite bind_log. cbn [outcome effects fst snd].
    destruct (get_status_writes s1) as [_ Hall].
    destruct (get_status s1) as [[[v|e] s2] t2] eqn:E2;
      cbn [outcome effects fst snd] in Hall.
    + rewrite (bind_returns _ _ _ _ _ _ E2), bind_log.
      cbn [outcome effects fst snd ret]. destruct (Hall v eq_refl) as [Hs _].
      split; [discriminate|]. intros _. sent. now rewrite Hw, Hs.
    + rewrite (bind_raises _ _ _ _ _ _ E2). split; discriminate.
  - cbn [outcome effects fst snd ret]. split; [|discriminate].
    intros _. sent. exact Hw.
Qed.

(** X2.  [enable] sends the three switching commands in order and then
    asks the state.  When it returns [True] nothing else was sent; when
    it returns [False] the six status queries followed. *)
Theorem enable_sends (s : ObisLaser) :
  (outcome (enable s) = Returns true ->
   writes (effects (enable s))
   = map (fun c => c ++ crlf) (enable_commands ++ [state_query])) /\
  (outcome (enable s) = Returns false ->
   writes (effects (enable s))
   = map (fun c => c ++ crlf)
       (enable_commands ++ [state_query] ++ map fst status_queries)).
Proof.
  unfold enable. rewrite lock_comms_run, bind_log.
  cbn [outcome effects fst snd].
  destruct (for_each_writes exchange_logged (fun c => c ++ crlf)
              exchange_logged_writes enable_commands s) as [_ Hall].
  destruct (for_each exchange_logged enable_commands s) as [[[v|e] s1] t1] eqn:E1;
    cbn [outcome effects fst snd] in Hall.
  2:{ rewrite (bind_raises _ _ _ _ _ _ E1). split; discriminate. }
  rewrite (bind_returns _ _ _ _ _ _ E1). cbn [outcome effects fst snd].
  destruct (Hall v eq_refl) as [Hs _].
  pose proof (check_state_writes negb s1) as [Htrue Hfalse].
  cbv zeta in Htrue, Hfalse.
  split; intros H; sent; rewrite Hs.
  - rewrite (Htrue H). now rewrite map_app.
  - rewrite (Hfalse H). rewrite !map_app, map_map. reflexivity.
Qed.

(** X3.  [disable] sends the switching-off command and then asks the
    state.  When it returns [True] nothing else was sent; when it returns
    [False] the six status queries followed. *)
Theorem disable_sends (s : ObisLaser) :
  (outcome (disable s) = Returns true ->
   writes (effects (disable s))
   = map (fun c => c ++ crlf) [b"SOURce:AM:STATe OFF"; state_query]) /\
  (outcome (disable s) = Returns false ->
   writes (effects (disable s))
   = map (fun c => c ++ crlf)
       ([b"SOURce:AM:STATe OFF"; state_query] ++ map fst status_queries)).
Proof.
  unfold disable. rewrite lock_comms_run, bind_log, bind_write.
  cbn [outcome final effects fst snd].
  pose proof (_readline_silent s) as Hr. unfold silent in Hr.
  destruct (_readline s) as [[[r|e] s1] t1] eqn:E1; cbn [effects snd] in Hr.
  2:{ rewrite (bind_raises _ _ _ _ _ _ E1). split; discriminate. }
  rewrite (bind_returns _ _ _ _ _ _ E1). cbn [outcome effects fst snd].
  pose proof (check_state_writes (fun on => on) s1) as [Htrue Hfalse].
  cbv zeta beta in Htrue, Hfalse.
  split; intros H; sent; rewrite Hr.
  - now rewrite (Htrue H).
  - rewrite (Hfalse H). cbn [map app]. now rewrite map_map.
Qed.

(** What [_readline] returns, call after call, on the port as it is in
    [s]: the responses to the next [n] commands (fewer when a read
    raises). *)
Fixpoint responses (n : nat) (s : ObisLaser) : list (list byte) :=
  match n with
  | O => []
  | S n' =>
      match _readline s with
      | (Returns response, s1, _) => response :: responses n' s1
      | (Raises _, _, _) => []
      end
  end.

(** A loop of queries that returns has read one response per query and
    decoded each; its entries are the labels with those texts. *)
Lemma status_rounds (queries : list (list byte * string)) (s : ObisLaser)
    (v : list string) :
  outcome (for_each (fun '(cmd, msg) =>
                       _write cmd ;;
                       response <- _readline ;;
                       text <- decode_ response ;;
                       ret (msg ++ " " ++ text)%string) queries s) = Returns v ->
  exists texts,
    mapM decode (responses (length queries) s) = Some texts /\
    length texts = length queries /\
    v = zip_with (fun q text => (q.2 ++ " " ++ text)%string) queries texts.
Proof.
  revert s v. induction queries as [|[cmd msg] queries IH]; intros s v.
  { intros [= <-]. now exists []. }
  cbn [for_each length responses].
  match goal with |- outcome (bind ?m _ s) = _ -> _ =>
    destruct (m s) as [[[y|e] sb] tb] eqn:Eb end.
  2:{ now rewrite (bind_raises _ _ _ _ _ _ Eb). }
  rewrite (bind_returns _ _ _ _ _ _ Eb). cbn [outcome fst].
  rewrite bind_write in Eb.
  destruct (_readline s) as [[[r|e] s1] t1] eqn:E1.
  2:{ rewrite (bind_raises _ _ _ _ _ _ E1) in Eb. discriminate. }
  rewrite (bind_returns _ _ _ _ _ _ E1) in Eb. unfold decode_, lift in Eb.
  destruct (decode r) as [text|] eqn:Hd; [|discriminate].
  cbn in Eb. injection Eb as <- <- _.
  specialize (IH s1).
  match goal with |- context [bind ?m _ s1] =>
    destruct (m s1) as [[[ys|e] s2] t2] eqn:E2 end.
  2:{ now rewrite (bind_raises _ _ _ _ _ _ E2). }
  rewrite (bind_returns _ _ _ _ _ _ E2). cbn [outcome ret fst]. intros [= <-].
  destruct (IH ys eq_refl) as (texts & Hm & Hlen & ->).
  exists (text :: texts). split; [|split].
  - apply mapM_Some. constructor; [exact Hd | now apply mapM_Some].
  - cbn. now rewrite Hlen.
  - reflexivity.
Qed.

(** X4.  When [get_status] returns, six responses were read, one after
    each query, and each was decoded.  The list returned has one entry
    per query, in the order of the queries: the query's label, a space,
    and the decoded text of the response to that query.  The six queries
    went out in that order. *)
Theorem get_status_report (s : ObisLaser) (v : list string) :
  outcome (get_status s) = Returns v ->
  (exists texts,
     mapM decode (responses 6 s) = Some texts /\
     length texts = 6 /\
     v = zip_with (fun q text => (q.2 ++ " " ++ text)%string) status_queries texts) /\
  writes (effects (get_status s)) = map (fun q => q.1 ++ crlf) status_queries.
Proof.
  intros Hv. split; [|now apply (proj2 (get_status_writes s) v)].
  unfold get_status in Hv. rewrite lock_comms_run in Hv.
  cbn [outcome fst] in Hv. exact (status_rounds status_queries s v Hv).
Qed.

(** X5.  [_on_shutdown] holds no lock of its own.  Once [disable] has
    returned, whatever it returned, the command that switches the
    temperature control off goes out, and it goes out with the lock free.
    When [disable] raises, nothing more is done. *)
Theorem _on_shutdown_unlocked (s : ObisLaser) :
  (forall ok s1 t1,
     disable s = (Returns ok, s1, t1) ->
     writes (effects (_on_shutdown s))
     = writes t1 ++ [b"SOURce:TEMPerature:APRobe OFF" ++ crlf] /\
     guarded 0 t1 = Some 0 /\
     guarded 0 (effects (_on_shutdown s)) = None) /\
  (forall e s1 t1,
     disable s = (Raises e, s1, t1) -> _on_shutdown s = (Raises e, s1, t1)).
Proof.
  split.
  - intros ok s1 t1 H.
    assert (Hg : guarded 0 t1 = Some 0).
    { assert (Hg : guarded 0 (effects (disable s)) = Some 0)
        by (apply lock_comms_guarded; locked).
      now rewrite H in Hg. }
    unfold _on_shutdown. rewrite (bind_returns _ _ _ _ _ _ H).
    cbn [effects snd]. split; [|split; [exact Hg|]].
    + now rewrite writes_app, exchange_logged_writes.
    + rewrite guarded_app, Hg. unfold exchange_logged.
      rewrite bind_write. reflexivity.
  - intros e s1 t1 H. unfold _on_shutdown. now rewrite (bind_raises _ _ _ _ _ _ H).
Qed.

(** *** What is sent, whatever the laser answers *)

(** [sends l m]: however [m] ends, what it has sent is a first part of
    [l]; when it returns, it has sent all of [l]. *)
Definition sends {A} (l : list (list byte)) (m : M A) : Prop :=
  forall s,
    writes (effects (m s)) `prefix_of` l /\
    (forall a, outcome (m s) = Returns a -> writes (effects (m s)) = l).

Lemma sends_bind {A B} l1 l2 (m : M A) (k : A -> M B) :
  sends l1 m -> (forall a, sends l2 (k a)) -> sends (l1 ++ l2) (bind m k).
Proof.
  intros Hm Hk s. destruct (Hm s) as [Hp He].
  destruct (m s) as [[[a|e] s1] t1] eqn:E; cbn [outcome effects fst snd] in Hp, He.
  - rewrite (bind_returns _ _ _ _ _ _ E). cbn [outcome effects fst snd].
    rewrite writes_app, (He a eq_refl). destruct (Hk a s1) as [Hp2 He2]. split.
    + now apply prefix_app.
    + intros r Hr. now rewrite (He2 r Hr).
  - rewrite (bind_raises _ _ _ _ _ _ E). cbn [outcome effects fst snd].
    split; [now apply prefix_app_r | discriminate].
Qed.

Lemma sends_silent {A} (m : M A) : always silent m -> sends [] m.
Proof. intros H s. specialize (H s). unfold silent in H. now rewrite H. Qed.

Lemma sends_for_each {A B} (body : A -> M B) (w : A -> list byte) (l : list A) :
  (forall x s, writes (effects (body x s)) = [w x]) ->
  sends (map w l) (for_each body l).
Proof.
  intros Hbody s. destruct (for_each_writes body w Hbody l s) as [Hp He].
  split; [exact Hp|]. intros a Ha. now apply (He a).
Qed.

Lemma query_mw_sends (cmd : list byte) : sends [cmd ++ crlf] (query_mw cmd).
Proof.
  intros s. unfold query_mw. rewrite bind_write. cbn [outcome effects fst snd].
  match goal with |- context [effects (?k s)] =>
    assert (Hq : always silent k) by quiet; specialize (Hq s) end.
  unfold silent in Hq. now rewrite writes_wrote, Hq.
Qed.

(** X6.  [__init__] sends ten commands in a fixed order: handshaking on,
    seven queries that are only logged, and the two power queries.  When
    it returns all ten went out; when a read, a decoding or a conversion
    fails, a first part of them did and the rest is never sent. *)
Theorem __init__sends_queries (port : list read_result) :
  let all := map (fun c => c ++ crlf)
               (init_queries ++ [b"SYSTem:INFormation:POWer?";
                                 b"SOURce:POWer:LIMit:LOW?"]) in
  writes (effects (__init__ (fresh port))) `prefix_of` all /\
  (outcome (__init__ (fresh port)) = Returns tt ->
   writes (effects (__init__ (fresh port))) = all).
Proof.
  intros all.
  assert (H : sends ([] ++ map (fun c => c ++ crlf) init_queries
                     ++ [b"SYSTem:INFormation:POWer?" ++ crlf] ++ [] ++ []
                     ++ [b"SOURce:POWer:LIMit:LOW?" ++ crlf] ++ [] ++ [])
                __init__).
  { unfold __init__.
    repeat first
      [ apply sends_bind; [|intros ?]
      | apply sends_for_each; exact exchange_logged_writes
      | apply query_mw_sends
      | apply sends_silent; intros ?; reflexivity ]. }
  destruct (H (fresh port)) as [Hp He]. split; [exact Hp|].
  intros Hr. exact (He tt Hr).
Qed.

(** *** Requests the limit check lets through *)

Lemma ltb_nan_r (x : float) : (x <? nan)%float = false.
Proof.
  rewrite FloatAxioms.ltb_spec. unfold SFltb.
  change (Prim2SF nan) with S754_nan.
  now destruct (Prim2SF x).
Qed.

Lemma ltb_neg_infinity_r (x : float) : (x <? neg_infinity)%float = false.
Proof.
  rewrite FloatAxioms.ltb_spec. unfold SFltb.
  change (Prim2SF neg_infinity) with (S754_infinity true).
  destruct (Prim2SF x) as [[]|[]| |[]]; reflexivity.
Qed.

(** X7.  The only check [_set_power_mw] makes is [mW > self._max_power]:
    every request that is not above the cached maximum is sent, and the
    cached minimum is never looked at.  A request that is not a number
    passes the check, and so does minus infinity. *)
Theorem _set_power_mw_unchecked (max : float) (s : ObisLaser) :
  _max_power s = Some max ->
  let command mW := amplitude_command ++ format_5f (mW / 1000)%float ++ crlf in
  (forall mW, (max <? mW)%float = false ->
     writes (effects (_set_power_mw mW s)) = [command mW]) /\
  writes (effects (_set_power_mw nan s)) = [command nan] /\
  writes (effects (_set_power_mw neg_infinity s)) = [command neg_infinity].
Proof.
  intros Hmax command.
  assert (Hsent : forall mW, (max <? mW)%float = false ->
            writes (effects (_set_power_mw mW s)) = [command mW]).
  { intros mW Hcmp. unfold _set_power_mw. rewrite lock_comms_run.
    assert (Ha : attr _max_power "_max_power" s = (Returns max, s, [])).
    { unfold attr, bind, get_state, lift. now rewrite Hmax. }
    rewrite (bind_returns _ _ _ _ _ _ Ha). rewrite Hcmp.
    rewrite bind_log, bind_write. cbn [effects snd app].
    match goal with |- context [effects (?k s)] =>
      assert (Hq : always silent k) by quiet; specialize (Hq s) end.
    unfold silent in Hq. sent. rewrite Hq. unfold command.
    now rewrite <- app_assoc. }
  split; [exact Hsent|]. split; apply Hsent.
  - apply ltb_nan_r.
  - apply ltb_neg_infinity_r.
Qed.

(** *** Is the laser on? *)

(** X8.  [get_is_on] sends the state query and compares the stripped
    response with [b'ON'], byte for byte: it returns [True] for that
    response and [False] for any other.  A response that cannot be
    decoded for the log makes it raise, with the lock given back.
    [is_alive] answers the same, so it is [False] for a laser that
    responds but is not emitting. *)
Theorem get_is_on_answer (s : ObisLaser) (response : list byte)
    (s1 : ObisLaser) (t1 : list event) :
  _readline s = (Returns response, s1, t1) ->
  (forall text, decode response = Some text ->
     exists on,
       get_is_on s
       = (Returns on, s1,
          Acquire :: Wrote (state_query ++ crlf) :: t1 ++ [Log INFO; Release])
       /\ (on = true <-> response = b"ON")
       /\ outcome (is_alive s) = Returns on) /\
  (decode response = None ->
     get_is_on s
     = (Raises UnicodeDecodeError, s1,
        Acquire :: Wrote (state_query ++ crlf) :: t1 ++ [Release])).
Proof.
  intros Hr.
  assert (Hrun : get_is_on s
                 = match decode response with
                   | Some _ =>
                       (Returns (bytes_eqb response (b"ON")), s1,
                        Acquire :: Wrote (state_query ++ crlf) :: t1
                          ++ [Log INFO; Release])
                   | None =>
                       (Raises UnicodeDecodeError, s1,
                        Acquire :: Wrote (state_query ++ crlf) :: t1 ++ [Release])
                   end).
  { unfold get_is_on. rewrite lock_comms_run, bind_write.
    rewrite (bind_returns _ _ _ _ _ _ Hr). unfold decode_, lift.
    destruct (decode response); cbn; rewrite ?app_nil_r, <- ?app_assoc;
      reflexivity. }
  split.
  - intros text Hd. rewrite Hd in Hrun.
    exists (bytes_eqb response (b"ON")). split; [exact Hrun|].
    split; [apply bytes_eqb_eq|].
    unfold is_alive. rewrite lock_comms_run, Hrun. reflexivity.
  - intros Hd. now rewrite Hd in Hrun.
Qed.

(** *** The power limits *)

Lemma query_mw_run (cmd response : list byte) (s s1 : ObisLaser) (t1 : list event) :
  _readline s = (Returns response, s1, t1) ->
  query_mw cmd s
  = (match decode response with
     | None => Raises UnicodeDecodeError
     | Some text =>
         match float_of_str text with
         | None => Raises ValueError
         | Some w => Returns (w * 1000)%float
         end
     end, s1, Wrote (cmd ++ crlf) :: t1).
Proof.
  intros Hr. unfold query_mw. rewrite bind_write.
  rewrite (bind_returns _ _ _ _ _ _ Hr). unfold decode_, float_, lift.
  destruct (decode response) as [text|]; cbn; [|now rewrite app_nil_r].
  destruct (float_of_str text); cbn; now rewrite app_nil_r.
Qed.

(** X16.  [get_min_power_mw] and [get_max_power_mw] each send one query
    under the lock and return the response, read as a number of watts,
    times 1000; a response that is not a number raises [ValueError], with
    the lock given back.  Neither touches the powers that [__init__]
    cached, so the limit [_set_power_mw] checks is not refreshed by
    asking the laser for its maximum. *)
Theorem power_limits_queried (s : ObisLaser) (response : list byte)
    (s1 : ObisLaser) (t1 : list event) :
  _readline s = (Returns response, s1, t1) ->
  let answer :=
    match decode response with
    | None => Raises UnicodeDecodeError
    | Some text =>
        match float_of_str text with
        | None => Raises ValueError
        | Some w => Returns (w * 1000)%float
        end
    end in
  get_min_power_mw s
  = (answer, s1,
     Acquire :: Wrote (b"SOURce:POWer:LIMit:LOW?" ++ crlf) :: t1 ++ [Release]) /\
  get_max_power_mw s
  = (answer, s1,
     Acquire :: Wrote (b"SOURce:POWer:LIMit:HIGH?" ++ crlf) :: t1 ++ [Release]) /\
  _max_power s1 = _max_power s /\ _min_power s1 = _min_power s.
Proof.
  intros Hr answer. unfold get_min_power_mw, get_max_power_mw.
  rewrite !lock_comms_run, !(query_mw_run _ response s s1 t1 Hr).
  split; [reflexivity|]. split; [reflexivity|].
  pose proof (_readline_keeps_powers s) as (H1 & H2 & _).
  rewrite Hr in H1, H2. now split.
Qed.

End Methods.

(** *** The theorems at work on concrete exchanges *)

Lemma get_power_mw_reports_witness :
  get_power_mw decode_ascii float_of_decimal (laser (answers ["OFF"; "OK"]))
  = (Returns 0%float, laser [],
     [Acquire; Wrote (state_query ++ crlf); Read (Line (b"OFF" ++ crlf));
      Read (Line (b"OK" ++ crlf)); Log INFO; Release])
  /\ outcome (get_power_mw decode_ascii float_of_decimal
                (laser (answers ["ON"; "OK"; "OFF"; "OK"])))
     = Returns 0%float
  /\ outcome (get_power_mw decode_ascii float_of_decimal
                (laser (answers ["ON"; "OK"; "ON"; "OK"; "0.05"; "OK"])))
     = Returns 50%float.
Proof.
  split; [|split].
  - apply (proj1 (get_power_mw_reports decode_ascii float_of_decimal _)).
    reflexivity.
  - destruct (get_power_mw_reports decode_ascii float_of_decimal
                (laser (answers ["ON"; "OK"; "OFF"; "OK"]))) as (_ & H & _).
    edestruct H as [E _]; [reflexivity | reflexivity |]. now rewrite E.
  - destruct (get_power_mw_reports decode_ascii float_of_decimal
                (laser (answers ["ON"; "OK"; "ON"; "OK"; "0.05"; "OK"])))
      as (_ & _ & H).
    edestruct H as [E _];
      [reflexivity | reflexivity | reflexivity | reflexivity | reflexivity |].
    now rewrite E.
Defined.

Lemma _set_power_mw_limit_witness :
  _set_power_mw decode_ascii format_fixed5 150 (laser (answers ["OK"]))
  = (Returns None, laser (answers ["OK"]), [Acquire; Release])
  /\ writes (effects (_set_power_mw decode_ascii format_fixed5 50
                        (laser (answers ["OK"]))))
     = [amplitude_command ++ b"0.05000" ++ crlf].
Proof.
  split.
  - apply (proj1 (_set_power_mw_limit decode_ascii format_fixed5 150 110
                    (laser (answers ["OK"])) eq_refl)).
    reflexivity.
  - apply (proj2 (_set_power_mw_limit decode_ascii format_fixed5 50 110
                    (laser (answers ["OK"])) eq_refl)).
    reflexivity.
Defined.

(** Two threads, each asking whether the laser is on, one after the
    other: a schedule the lock allows. *)
Definition two_callers : list (nat * event) :=
  map (pair 1) (log_of decode_ascii float_of_decimal format_fixed5 Call_get_is_on
                  (laser (answers ["ON"; "OK"])))
  ++ map (pair 2) (log_of decode_ascii float_of_decimal format_fixed5 Call_get_is_on
                     (laser (answers ["OFF"; "OK"]))).

Lemma lock_comms_serializes_witness :
  exists l,
    lock_after None (take 7 two_callers) = Some l /\ holder l = Some 2.
Proof.
  apply (proj2 (lock_comms_serializes decode_ascii float_of_decimal format_fixed5)
           two_callers)
    with (e := Wrote (state_query ++ crlf)) (after := drop 8 two_callers).
  - intros th. destruct th as [|[|[|th]]].
    + exists [], []. reflexivity.
    + exists [(Call_get_is_on, laser (answers ["ON"; "OK"]))], []. reflexivity.
    + exists [(Call_get_is_on, laser (answers ["OFF"; "OK"]))], []. reflexivity.
    + exists [], []. reflexivity.
  - eexists. reflexivity.
  - reflexivity.
  - reflexivity.
Defined.

(** Failures while reading, on a port that breaks after one line and on
    one whose handshake reports an error. *)
Lemma _readline_failures_witness :
  _readline (laser [Line (b"0.05" ++ crlf); ReadError])
  = (Returns (b"0.05"), laser [],
     [Read (Line (b"0.05" ++ crlf)); Read ReadError; Log ERROR])
  /\ _readline (laser (answers ["0.05"; "ERR-100"]))
     = (Returns (b"0.05"), laser [],
        [Read (Line (b"0.05" ++ crlf)); Read (Line (b"ERR-100" ++ crlf)); Log ERROR]).
Proof.
  destruct (_readline_failures (laser []) []) as (_ & _ & H).
  destruct (H (b"0.05" ++ crlf) eq_refl eq_refl) as [H1 H2].
  split; [exact H1 | exact (H2 (b"ERR-100" ++ crlf) eq_refl)].
Defined.

(** Switching on a laser that obeys, and one that stays off and then
    falls silent. *)
Lemma enable_sends_witness :
  writes (effects (enable decode_ascii (laser (answers ["OK"; "OK"; "OK"; "ON"; "OK"]))))
  = map (fun c => c ++ crlf) (enable_commands ++ [state_query])
  /\ writes (effects (enable decode_ascii
                        (laser (answers ["OK"; "OK"; "OK"; "OFF"; "OK"]))))
     = map (fun c => c ++ crlf)
         (enable_commands ++ [state_query] ++ map fst status_queries).
Proof.
  split.
  - apply (proj1 (enable_sends decode_ascii _)). reflexivity.
  - apply (proj2 (enable_sends decode_ascii _)). reflexivity.
Defined.

Lemma disable_sends_witness :
  writes (effects (disable decode_ascii (laser (answers ["OK"; "OFF"; "OK"]))))
  = map (fun c => c ++ crlf) [b"SOURce:AM:STATe OFF"; state_query]
  /\ writes (effects (disable decode_ascii (laser (answers ["OK"; "ON"; "OK"]))))
     = map (fun c => c ++ crlf)
         ([b"SOURce:AM:STATe OFF"; state_query] ++ map fst status_queries).
Proof.
  split.
  - apply (proj1 (disable_sends decode_ascii _)). reflexivity.
  - apply (proj2 (disable_sends decode_ascii _)). reflexivity.
Defined.

(** A status report of a laser that is emitting. *)
Definition status_port : list read_result :=
  answers ["ON"; "OK"; "0.05"; "OK"; "0.049"; "OK"; "1"; "OK"; "0"; "OK";
           "12.5"; "OK"].

Lemma get_status_report_witness :
  outcome (get_status decode_ascii (laser status_port))
  = Returns ["Emission on? ON"; "Target power: 0.05"; "Measured power: 0.049";
             "Status code? 1"; "Fault code? 0"; "Head operating hours: 12.5"]%string
  /\ responses 6 (laser status_port)
     = [b"ON"; b"0.05"; b"0.049"; b"1"; b"0"; b"12.5"]
  /\ writes (effects (get_status decode_ascii (laser status_port)))
     = map (fun q => q.1 ++ crlf) status_queries.
Proof.
  split; [reflexivity|]. split; [reflexivity|].
  eapply (get_status_report decode_ascii (laser status_port)). reflexivity.
Defined.

(** Shutting down a laser that obeys: the last exchange is outside the
    lock. *)
Lemma _on_shutdown_unlocked_witness :
  outcome (disable decode_ascii (laser (answers ["OK"; "OFF"; "OK"; "OK"])))
  = Returns true
  /\ guarded 0 (effects (_on_shutdown decode_ascii
                           (laser (answers ["OK"; "OFF"; "OK"; "OK"]))))
     = None.
Proof.
  split; [reflexivity|].
  edestruct (proj1 (_on_shutdown_unlocked decode_ascii
                      (laser (answers ["OK"; "OFF"; "OK"; "OK"]))))
    as (_ & _ & H); [reflexivity | exact H].
Defined.

(** Opening a laser that answers every query. *)
Definition opening_port : list read_result :=
  answers ["OK"; "OFF"; "OK"; "OBIS 488"; "OK"; "12345"; "OK"; "ON"; "OK";
           "ON"; "OK"; "0"; "OK"; "OFF"; "OK"; "0.11"; "OK"; "0.001"; "OK"].

Lemma __init__sends_queries_witness :
  outcome (__init__ decode_ascii float_of_decimal (fresh opening_port)) = Returns tt
  /\ writes (effects (__init__ decode_ascii float_of_decimal (fresh opening_port)))
     = map (fun c => c ++ crlf)
         (init_queries ++ [b"SYSTem:INFormation:POWer?"; b"SOURce:POWer:LIMit:LOW?"]).
Proof.
  split; [reflexivity|].
  apply (proj2 (__init__sends_queries decode_ascii float_of_decimal opening_port)).
  reflexivity.
Defined.

(** A request below the cached minimum, and one that is not a number. *)
Lemma _set_power_mw_unchecked_witness :
  _min_power (laser []) = Some 0%float
  /\ writes (effects (_set_power_mw decode_ascii format_fixed5 (-5) (laser [])))
     = [amplitude_command ++ b"-0.00500" ++ crlf]
  /\ writes (effects (_set_power_mw decode_ascii format_fixed5 nan (laser [])))
     = [amplitude_command ++ format_fixed5 (nan / 1000) ++ crlf].
Proof.
  destruct (_set_power_mw_unchecked decode_ascii format_fixed5 110 (laser []) eq_refl)
    as (H1 & H2 & _).
  split; [reflexivity|]. split; [exact (H1 (-5)%float eq_refl) | exact H2].
Defined.

(** The comparison with [b'ON'] is exact. *)
Lemma get_is_on_answer_witness :
  outcome (get_is_on decode_ascii (laser (answers ["ON"; "OK"]))) = Returns true
  /\ outcome (is_alive decode_ascii (laser (answers ["On"; "OK"]))) = Returns false.
Proof.
  split.
  - edestruct (proj1 (get_is_on_answer decode_ascii (laser (answers ["ON"; "OK"]))
                        _ _ _ eq_refl))
      as (on & Hrun & Hiff & _); [reflexivity|].
    rewrite Hrun. cbn. f_equal. now apply Hiff.
  - edestruct (proj1 (get_is_on_answer decode_ascii (laser (answers ["On"; "OK"]))
                        _ _ _ eq_refl))
      as (on & _ & Hiff & Halive); [reflexivity|].
    rewrite Halive. f_equal. destruct on; [|reflexivity].
    now destruct (proj1 Hiff eq_refl).
Defined.

(** The laser reports a maximum of 0.25 W; the cached limit stays at
    110 mW. *)
Lemma power_limits_queried_witness :
  outcome (get_max_power_mw decode_ascii float_of_decimal (laser (answers ["0.25"; "OK"])))
  = Returns 250%float
  /\ _max_power (final (get_max_power_mw decode_ascii float_of_decimal
                          (laser (answers ["0.25"; "OK"]))))
     = Some 110%float
  /\ outcome (get_min_power_mw decode_ascii float_of_decimal
                (laser (answers ["none"; "OK"])))
     = Raises ValueError.
Proof.
  destruct (power_limits_queried decode_ascii float_of_decimal
              (laser (answers ["0.25"; "OK"])) (b"0.25") (laser [])
              [Read (Line (b"0.25" ++ crlf)); Read (Line (b"OK" ++ crlf))] eq_refl)
    as (_ & Hmax & Hcache & _).
  destruct (power_limits_queried decode_ascii float_of_decimal
              (laser (answers ["none"; "OK"])) (b"none") (laser [])
              [Read (Line (b"none" ++ crlf)); Read (Line (b"OK" ++ crlf))] eq_refl)
    as (Hmin & _).
  split; [|split].
  - now rewrite Hmax.
  - rewrite Hmax. reflexivity.
  - now rewrite Hmin.
Defined.

(** C6 as stated fails: not all access to the serial channel is under
    the lock.  [_on_shutdown] is not decorated: once [disable] has given
    the lock back, the command that switches the temperature control off
    goes out with the lock free, so it can go out while another thread
    holds the lock in the middle of its own exchange.  [__init__] is not
    decorated either. *)
Definition shutdown_log : list event :=
  effects (_on_shutdown decode_ascii (laser (answers ["OK"; "OFF"; "OK"; "OK"]))).

Definition probe_off : event := Wrote (b"SOURce:TEMPerature:APRobe OFF" ++ crlf).

(** Thread 1 shuts the laser down; thread 2 has sent its state query and
    waits for the answer when thread 1 sends its last command. *)
Definition interleaved : list (nat * event) :=
  map (pair 1) (take 11 shutdown_log)
  ++ [(2, Acquire); (2, Wrote (state_query ++ crlf))]
  ++ map (pair 1) (drop 11 shutdown_log).

Lemma lock_comms_counterexample :
  outcome (_on_shutdown decode_ascii (laser (answers ["OK"; "OFF"; "OK"; "OK"])))
  = Returns tt /\
  guarded 0 shutdown_log = None /\
  (map (pair 1) shutdown_log
   = map (pair 1) (take 11 shutdown_log) ++ (1, probe_off)
       :: map (pair 1) (drop 12 shutdown_log)
   /\ is_io probe_off = true
   /\ is_Some (lock_after None (map (pair 1) shutdown_log))
   /\ lock_after None (map (pair 1) (take 11 shutdown_log)) = Some None) /\
  (thread_log 1 interleaved = shutdown_log
   /\ thread_log 2 interleaved
      = take 2 (log_of decode_ascii float_of_decimal format_fixed5 Call_get_is_on
                  (laser (answers ["ON"; "OK"])))
   /\ is_Some (lock_after None interleaved)
   /\ interleaved = take 13 interleaved ++ (1, probe_off) :: drop 14 interleaved
   /\ lock_after None (take 13 interleaved) = Some (Some (2, 1))) /\
  guarded 0 (effects (__init__ decode_ascii float_of_decimal (fresh opening_port)))
  = None.
Proof.
  split; [reflexivity|]. split; [reflexivity|].
  split; [repeat split; try reflexivity; eexists; reflexivity|].
  split; [repeat split; try reflexivity; eexists; reflexivity|].
  reflexivity.
Qed.

End Obis.

(** ** Values the mirror drivers handle *)

(** A numpy array of doubles: its shape and its elements in C order. *)
Record ndarray : Type := {
  shape : list nat;
  data : list float;
}.

Definition map_array (f : float -> float) (a : ndarray) : ndarray :=
  {| shape := shape a; data := map f (data a) |}.

(** What a Python name can be bound to in the mirror modules. *)
Inductive pyobj : Type :=
| Array (a : ndarray)
| Self
| Module (name : string)
| Class_ (name : string).

(** Python 3 text ([obis.py] of the same package needs Python 3.5 for its
    annotations and its [bytes] formatting): [bytes] and [str] are
    different types, and [+] between them raises [TypeError]. *)
Inductive text : Type :=
| Bytes (l : list byte)
| Str (s : string).

Definition text_add (x y : text) : result text :=
  match x, y with
  | Bytes l1, Bytes l2 => Returns (Bytes (l1 ++ l2))
  | Str s1, Str s2 => Returns (Str (s1 ++ s2))
  | _, _ => Raises TypeError
  end.

Definition text_len (x : text) : nat :=
  match x with Bytes l => length l | Str s => String.length s end.

(** Truth value of a text: empty is false. *)
Definition truthy (x : text) : bool := negb (Nat.eqb (text_len x) 0).

Definition text_to_string (x : text) : string :=
  match x with Bytes l => string_of_list_byte l | Str s => s end.

(** [int(x)] for a float: truncation toward zero; [nan] and the
    infinities raise. *)
Definition int_of_float (x : float) : result Z :=
  match Prim2SF x with
  | S754_zero _ => Returns 0%Z
  | S754_nan => Raises ValueError
  | S754_infinity _ => Raises OverflowError
  | S754_finite s m e =>
      let magnitude := if (0 <=? e)%Z then (Z.pos m * 2 ^ e)%Z
                       else (Z.pos m / 2 ^ (- e))%Z in
      Returns (if s then (- magnitude)%Z else magnitude)
  end.

(** Modelled from the spec: the [TriggerType] enumeration is declared in
    [microscope/devices.py], which is not among the sources.  The three
    members the mirror names are constructors; any other member is
    [OtherTrigger] with its [name]. *)
Inductive TriggerType : Type :=
| SOFTWARE
| RISING_EDGE
| FALLING_EDGE
| OtherTrigger (name : string).

Definition TriggerType_name (t : TriggerType) : string :=
  match t with
  | SOFTWARE => "SOFTWARE"
  | RISING_EDGE => "RISING_EDGE"
  | FALLING_EDGE => "FALLING_EDGE"
  | OtherTrigger name => name
  end.

#[global] Instance TriggerType_eq_dec : EqDecision TriggerType.
Proof. solve_decision. Defined.

#[global] Instance TriggerType_countable : Countable TriggerType.
Proof.
  refine (inj_countable'
            (fun t => match t with
                      | SOFTWARE => inl 0
                      | RISING_EDGE => inl 1
                      | FALLING_EDGE => inl 2
                      | OtherTrigger name => inr name
                      end)
            (fun x => match x with
                      | inl 0 => SOFTWARE
                      | inl 1 => RISING_EDGE
                      | inl _ => FALLING_EDGE
                      | inr name => OtherTrigger name
                      end) _).
  now intros [].
Defined.

(** ** The Alpao deformable mirror ([microscope/mirror/alpao.py]) *)

Module Alpao.

(** [_normalize_patterns] (lines 35-39): a module-level function of two
    parameters, [self] and [patterns]. *)
Definition _normalize_patterns_body (self : pyobj) (patterns : ndarray) : ndarray :=
  map_array (fun x => x * 2 - 1)%float patterns.

(** Calling it binds the positional arguments to the two parameters;
    any other number of arguments, or a first operand that cannot be
    multiplied, is a [TypeError]. *)
Definition _normalize_patterns (args : list pyobj) : result ndarray :=
  match args with
  | [self; Array patterns] => Returns (_normalize_patterns_body self patterns)
  | _ => Raises TypeError
  end.

(** The calls into the vendor library. *)
Inductive call : Type :=
| Call_Init (serial : list byte)
| Call_GetLastError
| Call_Get (dm : Z) (key : list byte)
| Call_Send (dm : Z) (values : ndarray)
| Call_Set (dm : Z) (key : list byte) (value : Z)
| Call_SendPattern (dm : Z) (values : ndarray) (n_patterns n_repeat : nat)
| Call_Reset (dm : Z).

Inductive event : Type :=
| Sdk (c : call)
| SetAttr (name : string).

Definition is_assignment (name : string) (e : event) : bool :=
  match e with SetAttr n => String.eqb n name | _ => false end.

Definition assignments (name : string) (t : list event) : nat :=
  length (List.filter (is_assignment name) t).

Definition sdk_calls (t : list event) : list call :=
  omap (fun e => match e with Sdk c => Some c | _ => None end) t.

(** [_err_msg_len] (line 45). *)
Definition _err_msg_len : nat := 64.

(** [_TriggerType_to_asdkTriggerIn] (lines 47-51). *)
Definition _TriggerType_to_asdkTriggerIn : gmap TriggerType Z :=
  <[SOFTWARE := 0%Z]> (<[RISING_EDGE := 1%Z]> (<[FALLING_EDGE := 2%Z]> ∅)).

(** The value of a ctypes character buffer: its bytes up to the first
    NUL. *)
Fixpoint buffer_value (buffer : list byte) : list byte :=
  match buffer with
  | [] => []
  | c :: rest => if Byte.eqb c x00 then [] else c :: buffer_value rest
  end.

(** What a library call that fills a buffer of [len] bytes leaves in it:
    the bytes written over what was there. *)
Definition overwrite (len : nat) (written old : list byte) : list byte :=
  take len (take len written ++ drop (length written) old).

(** A stand-in for the vendor library, to run the driver on: its state is
    the stack of errors not yet fetched.  Status 0 is success, -1 failure.
    [GetLastError] pops the stack and fails when the stack is empty. *)
Definition error_stack : Type := list (Z * list byte).

Definition stack_GetLastError (len : nat) (st : error_stack)
    : (Z * Z * list byte) * error_stack :=
  match st with
  | [] => ((-1, 0, []), [])%Z
  | (code, message) :: rest => ((0%Z, code, message), rest)
  end.

Definition stack_Init (serial : list byte) (st : error_stack) : Z * error_stack :=
  (1%Z, st).

Definition stack_Get (dm : Z) (key : list byte) (st : error_stack)
    : (Z * float) * error_stack :=
  ((0%Z, 97%float), st).

Definition stack_Send (dm : Z) (values : ndarray) (st : error_stack) : Z * error_stack :=
  (0%Z, st).

Definition stack_Set (dm : Z) (key : list byte) (value : Z) (st : error_stack)
    : Z * error_stack :=
  (0%Z, st).

Definition stack_SendPattern (dm : Z) (values : ndarray) (n r : nat) (st : error_stack)
    : Z * error_stack :=
  (0%Z, st).

Definition stack_Reset (dm : Z) (st : error_stack) : Z * error_stack :=
  (0%Z, st).

(** A reset that fails and leaves no error to fetch. *)
Definition failing_Reset (dm : Z) (st : error_stack) : Z * error_stack :=
  ((-1)%Z, st).

Section Mirror.
(** The vendor library [asdk] (the wrapper [microscope/_wrappers/asdk.py]
    is not among the sources): its two status constants, and what each
    entry point returns and does to the library's own state. *)
Variable sdk : Type.
Variable SUCCESS FAILURE : Z.
Variable asdk_Init : list byte -> sdk -> Z * sdk.
Variable asdk_GetLastError : nat -> sdk -> (Z * Z * list byte) * sdk.
Variable asdk_Get : Z -> list byte -> sdk -> (Z * float) * sdk.
Variable asdk_Send : Z -> ndarray -> sdk -> Z * sdk.
Variable asdk_Set : Z -> list byte -> Z -> sdk -> Z * sdk.
Variable asdk_SendPattern : Z -> ndarray -> nat -> nat -> sdk -> Z * sdk.
Variable asdk_Reset : Z -> sdk -> Z * sdk.

(** What the base classes keep on the instance ([microscope/devices.py]
    is not among the sources). *)
Variable base : Type.

(** The instance. *)
Record AlpaoDeformableMirror : Type := {
  _err_msg : list byte;
  _dm : Z;
  n_actuators : option Z;
  trigger_type : TriggerType;
  inherited : base;
}.

(** [DeformableMirror._validate_patterns] and
    [DeformableMirror.queue_patterns] of the base class. *)
Variable _validate_patterns : AlpaoDeformableMirror -> ndarray -> option exn.
Variable super_queue_patterns :
  AlpaoDeformableMirror -> ndarray -> result unit * AlpaoDeformableMirror.

(** A program runs on the instance and the library's state. *)
Definition M (A : Type) : Type := prog (AlpaoDeformableMirror * sdk) event A.

Definition set_err_msg (buffer : list byte) (o : AlpaoDeformableMirror) :=
  {| _err_msg := buffer; _dm := _dm o; n_actuators := n_actuators o;
     trigger_type := trigger_type o; inherited := inherited o |}.

Definition set_dm (dm : Z) (o : AlpaoDeformableMirror) :=
  {| _err_msg := _err_msg o; _dm := dm; n_actuators := n_actuators o;
     trigger_type := trigger_type o; inherited := inherited o |}.

Definition set_n_actuators (n : Z) (o : AlpaoDeformableMirror) :=
  {| _err_msg := _err_msg o; _dm := _dm o; n_actuators := Some n;
     trigger_type := trigger_type o; inherited := inherited o |}.

Definition on_self (f : AlpaoDeformableMirror -> AlpaoDeformableMirror) : M unit :=
  modify (fun s => (f s.1, s.2)).

Definition self_ : M AlpaoDeformableMirror :=
  s <- get_state ;; ret s.1.

(** A library call: its result, its effect on the library, and its place
    in the log. *)
Definition sdk_call {A} (c : call) (f : sdk -> A * sdk) : M A := fun s =>
  match f s.2 with (a, lib) => (Returns a, (s.1, lib), [Sdk c]) end.

Definition of_result {A} (r : result A) : M A :=
  match r with Returns a => ret a | Raises e => raise e end.

(** [_find_error_str] (lines 53-78).  Its two [+] are the runtime's:
    [add] is what [+] does on texts. *)
Definition _find_error_str_with (add : text -> text -> result text) : M text :=
  on_self (set_err_msg (replicate _err_msg_len x00)) ;;
  got <- sdk_call Call_GetLastError (asdk_GetLastError _err_msg_len) ;;
  let '(status, err, written) := got in
  on_self (fun o => set_err_msg (overwrite _err_msg_len written (_err_msg o)) o) ;;
  if (status =? SUCCESS)%Z then
    o <- self_ ;;
    let msg := Bytes (buffer_value (_err_msg o)) in
    msg <- (if _err_msg_len <? text_len msg
            then of_result (add msg (Str "..."))
            else ret msg) ;;
    msg <- of_result (add msg (Str ("(error " ++ decimal err ++ ")"))) ;;
    ret msg
  else ret (Str "").

(** [_raise_if_error] (lines 80-84), with the default [exception_cls]. *)
Definition _raise_if_error_with (add : text -> text -> result text) (status : Z)
    : M unit :=
  if negb (status =? SUCCESS)%Z then
    msg <- _find_error_str_with add ;;
    if truthy msg then raise (Exception (text_to_string msg)) else ret tt
  else ret tt.

(** The two methods under Python 3, where [+] is [text_add]. *)
Definition _find_error_str : M text := _find_error_str_with text_add.

Definition _raise_if_error (status : Z) : M unit := _raise_if_error_with text_add status.

(** [__init__] (lines 87-113), after the base classes' [__init__]. *)
Definition __init__ (serial_number : string) : M unit :=
  emit (SetAttr "_err_msg") ;;
  on_self (set_err_msg (replicate _err_msg_len x00)) ;;
  dm <- sdk_call (Call_Init (list_byte_of_string serial_number))
          (asdk_Init (list_byte_of_string serial_number)) ;;
  emit (SetAttr "_dm") ;;
  on_self (set_dm dm) ;;
  if (dm =? 0)%Z then
    raise (Exception "Failed to initialise connection: don't know why")
  else
    _raise_if_error FAILURE ;;
    got <- sdk_call (Call_Get dm (b"NbOfActuator")) (asdk_Get dm (b"NbOfActuator")) ;;
    let '(status, value) := got in
    _raise_if_error status ;;
    n <- of_result (int_of_float value) ;;
    emit (SetAttr "n_actuators") ;;
    on_self (set_n_actuators n).

Definition validate (pattern : ndarray) : M unit :=
  o <- self_ ;;
  match _validate_patterns o pattern with
  | Some e => raise e
  | None => ret tt
  end.

(** [apply_pattern] (lines 115-120).  The call of [_normalize_patterns]
    passes one argument. *)
Definition apply_pattern (pattern : ndarray) : M unit :=
  validate pattern ;;
  pattern <- of_result (_normalize_patterns [Array pattern]) ;;
  o <- self_ ;;
  status <- sdk_call (Call_Send (_dm o) pattern) (asdk_Send (_dm o) pattern) ;;
  _raise_if_error status.

(** [set_trigger_type] (lines 122-129). *)
Definition set_trigger_type (ttype : TriggerType) : M unit :=
  match _TriggerType_to_asdkTriggerIn !! ttype with
  | None =>
      raise (Exception ("unsupported trigger of type '" ++ TriggerType_name ttype
                        ++ "' for Alpao Mirrors"))
  | Some value =>
      o <- self_ ;;
      status <- sdk_call (Call_Set (_dm o) (b"TriggerIn") value)
                  (asdk_Set (_dm o) (b"TriggerIn") value) ;;
      _raise_if_error status
  end.

(** [numpy.atleast_2d] on the shape, and the number of rows. *)
Definition atleast_2d (a : ndarray) : ndarray :=
  match shape a with
  | [] => {| shape := [1; 1]; data := data a |}
  | [n] => {| shape := [1; n]; data := data a |}
  | _ => a
  end.

Definition rows (a : ndarray) : nat := hd 0 (shape a).

(** [queue_patterns] (lines 131-148), read with the comma that the
    argument list of [asdk.SendPattern] lacks after [data_pointer] (as
    the file stands, Python refuses to compile it). *)
Definition queue_patterns (patterns : ndarray) : M unit :=
  o <- self_ ;;
  match trigger_type o with
  | SOFTWARE =>
      fun s => match super_queue_patterns s.1 patterns with
               | (r, o') => (r, (o', s.2), [])
               end
  | _ =>
      validate patterns ;;
      let patterns := atleast_2d patterns in
      let n_patterns := rows patterns in
      status <- sdk_call (Call_SendPattern (_dm o) patterns n_patterns n_patterns)
                  (asdk_SendPattern (_dm o) patterns n_patterns n_patterns) ;;
      _raise_if_error status
  end.

(** [zero] (lines 156-158). *)
Definition zero : M unit :=
  o <- self_ ;;
  status <- sdk_call (Call_Reset (_dm o)) (asdk_Reset (_dm o)) ;;
  _raise_if_error status.

(** The object [__init__] starts from. *)
Definition fresh (ttype : TriggerType) (inh : base) : AlpaoDeformableMirror :=
  {| _err_msg := []; _dm := 0; n_actuators := None;
     trigger_type := ttype; inherited := inh |}.

(** The status [asdk.GetLastError] would return now. *)
Definition last_error_status (s : AlpaoDeformableMirror * sdk) : Z :=
  (asdk_GetLastError _err_msg_len s.2).1.1.1.

(** The actuator count is left alone: same value, no assignment. *)
Definition keeps_count (s s' : AlpaoDeformableMirror * sdk) (t : list event) : Prop :=
  n_actuators s'.1 = n_actuators s.1 /\ assignments "n_actuators" t = 0.

(** *** The error path *)

Lemma bind_sdk_call {A B} (c : call) (f : sdk -> A * sdk) (k : A -> M B)
    (s : AlpaoDeformableMirror * sdk) :
  bind (sdk_call c f) k s
  = let s1 := (s.1, (f s.2).2) in
    (outcome (k (f s.2).1 s1), final (k (f s.2).1 s1),
     Sdk c :: effects (k (f s.2).1 s1)).
Proof.
  unfold bind, sdk_call. destruct (f s.2) as [a lib]. cbn.
  now destruct (k a (s.1, lib)) as [[r s2] t2].
Qed.

Lemma bind_self {A} (k : AlpaoDeformableMirror -> M A)
    (s : AlpaoDeformableMirror * sdk) :
  bind self_ k s = k s.1 s.
Proof. unfold self_, bind, get_state, ret. cbn. now destruct (k s.1 s) as [[r s2] t2]. Qed.

Lemma bind_on_self {A} (f : AlpaoDeformableMirror -> AlpaoDeformableMirror)
    (k : unit -> M A) (s : AlpaoDeformableMirror * sdk) :
  bind (on_self f) k s = k tt (f s.1, s.2).
Proof. unfold on_self. now rewrite bind_modify. Qed.

(** [_find_error_str] asks the library once; it returns the empty string
    when the library reports no error, and otherwise ends in the
    [TypeError] of adding a [str] to the buffer's [bytes]. *)
Lemma _find_error_str_run (s : AlpaoDeformableMirror * sdk) :
  effects (_find_error_str s) = [Sdk Call_GetLastError] /\
  (last_error_status s <> SUCCESS -> outcome (_find_error_str s) = Returns (Str "")) /\
  (last_error_status s = SUCCESS -> outcome (_find_error_str s) = Raises TypeError).
Proof.
  unfold _find_error_str, _find_error_str_with, last_error_status.
  rewrite bind_on_self, bind_sdk_call. cbn [fst snd].
  destruct (asdk_GetLastError _err_msg_len s.2) as [[[status err] written] lib].
  cbn [fst snd]. rewrite bind_on_self. cbn [fst snd].
  destruct (Z.eqb_spec status SUCCESS) as [->|Hne].
  - rewrite bind_self. cbn [fst snd _err_msg set_err_msg].
    set (value := buffer_value _).
    assert (Hlen : (_err_msg_len <? text_len (Bytes value)) = false).
    { apply Nat.ltb_ge. subst value. cbn [text_len].
      set (buffer := overwrite _ _ _).
      assert (Hb : length buffer <= _err_msg_len).
      { subst buffer. unfold overwrite. rewrite length_take. lia. }
      revert Hb. generalize _err_msg_len. induction buffer as [|c buffer IH];
        intros n Hn; cbn in *; [lia|].
      destruct (Byte.eqb c x00); cbn; [lia|].
      destruct n; [lia|]. specialize (IH n). lia. }
    rewrite Hlen. cbn. repeat split; congruence.
  - cbn. repeat split; congruence.
Qed.

Lemma _raise_if_error_effects (status : Z) (s : AlpaoDeformableMirror * sdk) :
  effects (_raise_if_error status s)
  = if (status =? SUCCESS)%Z then [] else [Sdk Call_GetLastError].
Proof.
  unfold _raise_if_error, _raise_if_error_with; fold _find_error_str. destruct (status =? SUCCESS)%Z; [reflexivity|].
  cbn [negb]. destruct (_find_error_str_run s) as (Ht & _).
  unfold bind. destruct (_find_error_str s) as [[[msg|e] s1] t1];
    cbn [effects snd] in Ht; subst t1; [|reflexivity].
  now destruct (truthy msg).
Qed.

(** The buffer is at most [_err_msg_len] bytes long, and so is the text
    read from it. *)
Lemma buffer_value_fits (written old : list byte) :
  (_err_msg_len <? text_len (Bytes (buffer_value (overwrite _err_msg_len written old))))
  = false.
Proof.
  apply Nat.ltb_ge. cbn [text_len].
  set (buffer := overwrite _ _ _).
  assert (Hb : length buffer <= _err_msg_len).
  { subst buffer. unfold overwrite. rewrite length_take. lia. }
  revert Hb. generalize _err_msg_len. induction buffer as [|c buffer IH];
    intros n Hn; cbn in *; [lia|].
  destruct (Byte.eqb c x00); cbn; [lia|].
  destruct n; [lia|]. specialize (IH n). lia.
Qed.

(** The run of [_find_error_str], whatever [+] does: the buffer is
    cleared and then holds what the library wrote, the library is asked
    once, and the string is built from the buffer's text only when the
    library reports an error. *)
Lemma _find_error_str_with_run (add : text -> text -> result text)
    (s : AlpaoDeformableMirror * sdk) :
  let got := asdk_GetLastError _err_msg_len s.2 in
  let buffer := overwrite _err_msg_len got.1.2 (replicate _err_msg_len x00) in
  _find_error_str_with add s
  = (if (got.1.1.1 =? SUCCESS)%Z
     then add (Bytes (buffer_value buffer))
            (Str ("(error " ++ decimal got.1.1.2 ++ ")"))
     else Returns (Str ""),
     (set_err_msg buffer s.1, got.2), [Sdk Call_GetLastError]).
Proof.
  cbv zeta. unfold _find_error_str_with.
  rewrite bind_on_self, bind_sdk_call. cbn [fst snd].
  destruct (asdk_GetLastError _err_msg_len s.2) as [[[status err] written] lib].
  cbn [fst snd]. rewrite bind_on_self. cbn [fst snd].
  destruct (status =? SUCCESS)%Z; [|reflexivity].
  rewrite bind_self. cbn [fst snd _err_msg set_err_msg].
  rewrite buffer_value_fits.
  unfold bind, ret, of_result, raise, outcome, final, effects. cbn [fst snd].
  destruct (add _ _) as [msg|e]; reflexivity.
Qed.

(** C2 (as amended).  A status equal to [asdk.SUCCESS] raises nothing,
    calls nothing and leaves the instance and the library as they were.
    A status that differs clears the error buffer and makes exactly one
    library call, [asdk.GetLastError]; afterwards the buffer holds what
    that call wrote and nothing older.  When the call does not return
    [asdk.SUCCESS] the error string is empty and no exception is raised.
    When it does, the error string is the buffer's text followed by
    ["(error N)"], and once [+] has built it the exception raised has
    that string as its message.  [add] is the runtime's [+]; what happens
    when it refuses the operands is not part of the statement. *)
Theorem _raise_if_error_guarded (add : text -> text -> result text) (status : Z)
    (s : AlpaoDeformableMirror * sdk) :
  let got := asdk_GetLastError _err_msg_len s.2 in
  let buffer := overwrite _err_msg_len got.1.2 (replicate _err_msg_len x00) in
  let after := (set_err_msg buffer s.1, got.2) in
  let run := _raise_if_error_with add status s in
  (status = SUCCESS -> run = (Returns tt, s, [])) /\
  (status <> SUCCESS ->
     final run = after /\ effects run = [Sdk Call_GetLastError] /\
     (got.1.1.1 <> SUCCESS ->
        _find_error_str_with add s = (Returns (Str ""), after, [Sdk Call_GetLastError])
        /\ outcome run = Returns tt) /\
     (got.1.1.1 = SUCCESS ->
        forall msg,
          add (Bytes (buffer_value buffer))
            (Str ("(error " ++ decimal got.1.1.2 ++ ")")) = Returns msg ->
          truthy msg = true ->
          _find_error_str_with add s = (Returns msg, after, [Sdk Call_GetLastError])
          /\ outcome run = Raises (Exception (text_to_string msg)))).
Proof.
  intros got buffer after run. subst run. unfold _raise_if_error_with.
  split.
  - intros ->. now rewrite Z.eqb_refl.
  - intros Hne. apply Z.eqb_neq in Hne. rewrite Hne. cbn [negb].
    pose proof (_find_error_str_with_run add s) as Hrun. cbv zeta in Hrun.
    fold got in Hrun. fold buffer in Hrun. fold after in Hrun.
    unfold bind. rewrite Hrun.
    destruct (Z.eqb_spec got.1.1.1 SUCCESS) as [Hl|Hl].
    + destruct (add _ _) as [msg|e] eqn:Hadd.
      * destruct (truthy msg) eqn:Ht; cbn; (split; [reflexivity|]);
          (split; [reflexivity|]); (split; [intros; contradiction|]);
          intros _ msg' [= <-] Ht'; [now split | congruence].
      * cbn. split; [reflexivity|]. split; [reflexivity|].
        split; [intros; contradiction|]. intros _ msg' Hmsg. discriminate.
    + cbn. split; [reflexivity|]. split; [reflexivity|].
      split; [now split | intros; contradiction].
Qed.

(** *** The trigger, the patterns and the actuator count *)

Lemma trigger_dictionary :
  _TriggerType_to_asdkTriggerIn !! SOFTWARE = Some 0%Z /\
  _TriggerType_to_asdkTriggerIn !! RISING_EDGE = Some 1%Z /\
  _TriggerType_to_asdkTriggerIn !! FALLING_EDGE = Some 2%Z /\
  forall name, _TriggerType_to_asdkTriggerIn !! OtherTrigger name = None.
Proof.
  unfold _TriggerType_to_asdkTriggerIn. repeat split; intros; now simplify_map_eq.
Qed.

(** After a supported trigger's value went to [asdk.Set], the only call
    that can follow is the error path's [asdk.GetLastError]. *)
Lemma set_trigger_type_supported (ttype : TriggerType) (value : Z)
    (s : AlpaoDeformableMirror * sdk) :
  _TriggerType_to_asdkTriggerIn !! ttype = Some value ->
  exists rest,
    sdk_calls (effects (set_trigger_type ttype s))
    = Call_Set (_dm s.1) (b"TriggerIn") value :: rest
    /\ (rest = [] \/ rest = [Call_GetLastError]).
Proof.
  intros Hdict. unfold set_trigger_type. rewrite Hdict.
  rewrite bind_self, bind_sdk_call. cbn [effects snd fst].
  rewrite _raise_if_error_effects.
  destruct (_ =? SUCCESS)%Z; eexists; (split; [reflexivity|]); auto.
Qed.

(** C5.  [set_trigger_type] looks the trigger type up in the dictionary
    that maps [SOFTWARE] to 0, [RISING_EDGE] to 1 and [FALLING_EDGE] to 2,
    and hands the value found to [asdk.Set] on this mirror under the key
    [TriggerIn] (the only call that can follow is the error path's
    [asdk.GetLastError]); for any other trigger type it raises the
    exception that names the type, with no library call made and nothing
    changed. *)
Theorem set_trigger_type_maps (s : AlpaoDeformableMirror * sdk) :
  let sets ttype value :=
    exists rest,
      sdk_calls (effects (set_trigger_type ttype s))
      = Call_Set (_dm s.1) (b"TriggerIn") value :: rest
      /\ (rest = [] \/ rest = [Call_GetLastError]) in
  sets SOFTWARE 0%Z /\ sets RISING_EDGE 1%Z /\ sets FALLING_EDGE 2%Z /\
  forall name,
    set_trigger_type (OtherTrigger name) s
    = (Raises (Exception ("unsupported trigger of type '" ++ name
                          ++ "' for Alpao Mirrors")), s, []).
Proof.
  destruct trigger_dictionary as (H0 & H1 & H2 & Hother).
  cbv zeta. repeat match goal with |- _ /\ _ => split end;
    try (now apply set_trigger_type_supported).
  intros name. unfold set_trigger_type. now rewrite Hother.
Qed.

(** C10 (the code at any pattern).  [_normalize_patterns], given both of
    its parameters, returns the pattern with every value [x] replaced by
    [x * 2 - 1].  [apply_pattern] calls it with the pattern alone: a
    pattern that passes validation ends in [TypeError] with no library
    call made, so nothing is sent. *)
Theorem apply_pattern_never_sends (pattern : ndarray)
    (s : AlpaoDeformableMirror * sdk) :
  _normalize_patterns [Self; Array pattern]
  = Returns (map_array (fun x => x * 2 - 1)%float pattern) /\
  apply_pattern pattern s
  = (match _validate_patterns s.1 pattern with
     | Some e => Raises e
     | None => Raises TypeError
     end, s, []).
Proof.
  split; [reflexivity|].
  unfold apply_pattern, validate. unfold bind at 1. rewrite bind_self.
  destruct (_validate_patterns s.1 pattern); reflexivity.
Qed.

Lemma count_assignments_app name t1 t2 :
  assignments name (t1 ++ t2) = assignments name t1 + assignments name t2.
Proof. unfold assignments. now rewrite List.filter_app, length_app. Qed.

Lemma count_assignments_cons name e t :
  assignments name (e :: t)
  = (if is_assignment name e then 1 else 0) + assignments name t.
Proof. unfold assignments. cbn. now destruct (is_assignment name e). Qed.

Lemma keeps_count_refl s : keeps_count s s [].
Proof. now split. Qed.

Lemma keeps_count_trans s1 s2 s3 t1 t2 :
  keeps_count s1 s2 t1 -> keeps_count s2 s3 t2 -> keeps_count s1 s3 (t1 ++ t2).
Proof.
  intros [Ha Hb] [Ha' Hb']. split; [congruence|].
  rewrite count_assignments_app. lia.
Qed.

Lemma sdk_call_keeps_count {A} c (f : sdk -> A * sdk) :
  always keeps_count (sdk_call c f).
Proof. intros s. unfold sdk_call. now destruct (f s.2). Qed.

Lemma set_err_msg_keeps_count (g : AlpaoDeformableMirror -> list byte) :
  always keeps_count (on_self (fun o => set_err_msg (g o) o)).
Proof. intros s. now split. Qed.

Lemma self_keeps_count : always keeps_count self_.
Proof. intros s. now split. Qed.

Lemma of_result_keeps_count {A} (r : result A) : always keeps_count (of_result r).
Proof. intros s. now destruct r. Qed.

Ltac count :=
  repeat first
    [ apply (always_ret _ keeps_count_refl)
    | apply (always_raise _ keeps_count_refl)
    | apply (always_bind _ keeps_count_trans); [|intros ?]
    | apply sdk_call_keeps_count
    | apply self_keeps_count
    | apply of_result_keeps_count
    | apply (set_err_msg_keeps_count (fun _ => _))
    | apply set_err_msg_keeps_count
    | match goal with
      | |- always _ (if ?c then _ else _) => destruct c
      | |- always _ (match ?x with _ => _ end) => destruct x
      end
    | solve [auto] ].

Lemma _find_error_str_keeps_count : always keeps_count _find_error_str.
Proof. unfold _find_error_str, _find_error_str_with. count. Qed.

Lemma _raise_if_error_keeps_count status : always keeps_count (_raise_if_error status).
Proof.
  pose proof _find_error_str_keeps_count. unfold _raise_if_error, _raise_if_error_with; fold _find_error_str. count.
Qed.

Lemma validate_keeps_count pattern : always keeps_count (validate pattern).
Proof. unfold validate. count. Qed.

Lemma apply_pattern_keeps_count pattern : always keeps_count (apply_pattern pattern).
Proof.
  pose proof _raise_if_error_keeps_count. pose proof validate_keeps_count.
  unfold apply_pattern. count.
Qed.

Lemma set_trigger_type_keeps_count ttype : always keeps_count (set_trigger_type ttype).
Proof.
  pose proof _raise_if_error_keeps_count. unfold set_trigger_type. count.
Qed.

Lemma zero_keeps_count : always keeps_count zero.
Proof. pose proof _raise_if_error_keeps_count. unfold zero. count. Qed.

Lemma queue_patterns_keeps_count patterns :
  (forall o p, n_actuators (super_queue_patterns o p).2 = n_actuators o) ->
  always keeps_count (queue_patterns patterns).
Proof.
  intros Hsuper.
  pose proof _raise_if_error_keeps_count. pose proof validate_keeps_count.
  unfold queue_patterns. apply (always_bind _ keeps_count_trans); [count|].
  intros o. destruct (trigger_type o); [|count..].
  intros s. specialize (Hsuper s.1 patterns).
  destruct (super_queue_patterns s.1 patterns) as [r o']. now split.
Qed.

(** [__init__] assigns the actuator count at most once, and exactly once
    when it returns; the count is then set. *)
Lemma __init__assigns_count_once (serial_number : string) (s : AlpaoDeformableMirror * sdk) :
  let run := __init__ serial_number s in
  assignments "n_actuators" (effects run) <= 1 /\
  (outcome run = Returns tt ->
   assignments "n_actuators" (effects run) = 1 /\ is_Some (n_actuators (final run).1)).
Proof.
  intros run. subst run. unfold __init__.
  rewrite bind_emit; cbn beta. rewrite bind_on_self; cbn beta.
  rewrite bind_sdk_call; cbn beta zeta. rewrite bind_emit; cbn beta.
  rewrite bind_on_self; cbn beta.
  cbn [outcome final effects fst snd].
  set (s0 := (set_dm _ _, _)). set (dm := (asdk_Init _ _).1).
  destruct (dm =? 0)%Z; [split; [cbn; lia | discriminate]|].
  pose proof (_raise_if_error_keeps_count FAILURE s0) as [_ H1].
  destruct (_raise_if_error FAILURE s0) as [[[u1|e1] s1] t1] eqn:E1;
    cbn [effects snd] in H1.
  2:{ rewrite (bind_raises _ _ _ _ _ _ E1). cbn [outcome final effects fst snd].
      rewrite !count_assignments_cons, H1. split; [cbn; lia | discriminate]. }
  rewrite (bind_returns _ _ _ _ _ _ E1), bind_sdk_call.
  cbn [outcome final effects fst snd].
  destruct (asdk_Get dm (b"NbOfActuator") s1.2) as [[status value] lib].
  cbn [fst snd]. set (s2 := (s1.1, lib)).
  pose proof (_raise_if_error_keeps_count status s2) as [_ H2].
  destruct (_raise_if_error status s2) as [[[u2|e2] s3] t3] eqn:E2;
    cbn [effects snd] in H2.
  2:{ rewrite (bind_raises _ _ _ _ _ _ E2). cbn [outcome final effects fst snd].
      rewrite !count_assignments_cons, count_assignments_app, count_assignments_cons, H1, H2.
      split; [cbn; lia | discriminate]. }
  rewrite (bind_returns _ _ _ _ _ _ E2).
  destruct (int_of_float value) as [n|e3]; cbn [of_result].
  2:{ cbn [outcome final effects fst snd bind raise].
      rewrite !count_assignments_cons, count_assignments_app, count_assignments_cons,
        count_assignments_app, H1, H2.
      split; [cbn; lia | discriminate]. }
  cbn [outcome final effects fst snd bind ret emit on_self modify app].
  rewrite !count_assignments_cons, count_assignments_app, count_assignments_cons,
    count_assignments_app, count_assignments_cons, H1, H2.
  split; [cbn; lia|]. intros _. split; [cbn; lia | cbn; eauto].
Qed.

(** *** The error path, call by call *)

(** What [_raise_if_error] ends in, from the status it is given and the
    status [asdk.GetLastError] returns. *)
Lemma _raise_if_error_outcome (status : Z) (s : AlpaoDeformableMirror * sdk) :
  outcome (_raise_if_error status s)
  = if (status =? SUCCESS)%Z then Returns tt
    else if (last_error_status s =? SUCCESS)%Z then Raises TypeError
    else Returns tt.
Proof.
  unfold _raise_if_error, _raise_if_error_with; fold _find_error_str. destruct (status =? SUCCESS)%Z; [reflexivity|].
  cbn [negb]. destruct (_find_error_str_run s) as (_ & Hempty & Htype).
  unfold bind.
  destruct (_find_error_str s) as [[[msg|e] s1] t1]; cbn [outcome fst] in *;
    destruct (Z.eqb_spec (last_error_status s) SUCCESS) as [Heq|Hne].
  - specialize (Htype Heq). discriminate.
  - specialize (Hempty Hne). injection Hempty as ->. reflexivity.
  - specialize (Htype Heq). congruence.
  - specialize (Hempty Hne). discriminate.
Qed.

(** The error path changes nothing of the instance but the buffer. *)
Definition keeps_handle (s s' : AlpaoDeformableMirror * sdk) (t : list event) : Prop :=
  _dm s'.1 = _dm s.1 /\ n_actuators s'.1 = n_actuators s.1 /\
  trigger_type s'.1 = trigger_type s.1.

Lemma _raise_if_error_keeps_handle (status : Z) :
  always keeps_handle (_raise_if_error status).
Proof.
  intros s. unfold _raise_if_error, _raise_if_error_with; fold _find_error_str. destruct (status =? SUCCESS)%Z; [now split|].
  cbn [negb]. unfold _find_error_str, _find_error_str_with.
  unfold bind at 1. rewrite bind_on_self, bind_sdk_call. cbn [fst snd].
  destruct (asdk_GetLastError _err_msg_len s.2) as [[[st err] written] lib].
  cbn [fst snd]. rewrite bind_on_self. cbn [fst snd].
  destruct (st =? SUCCESS)%Z.
  - rewrite bind_self. cbn [fst snd].
    destruct (_err_msg_len <? _); cbn; now split.
  - cbn. now split.
Qed.

(** X9.  Under Python 3 the exception class given to [_raise_if_error]
    is never raised.  When the status is not [asdk.SUCCESS] and the
    library has an error to report, building the message adds a [str] to
    the buffer's [bytes], and the call ends in [TypeError]; in every
    other case it returns. *)
Theorem _raise_if_error_never_reports (status : Z) (s : AlpaoDeformableMirror * sdk) :
  (outcome (_raise_if_error status s) = Raises TypeError <->
   status <> SUCCESS /\ last_error_status s = SUCCESS) /\
  (outcome (_raise_if_error status s) = Returns tt <->
   status = SUCCESS \/ last_error_status s <> SUCCESS) /\
  (forall msg, outcome (_raise_if_error status s) <> Raises (Exception msg)).
Proof.
  rewrite _raise_if_error_outcome.
  destruct (Z.eqb_spec status SUCCESS) as [Hs|Hs];
    destruct (Z.eqb_spec (last_error_status s) SUCCESS) as [Hl|Hl];
    clear - Hs Hl;
    repeat match goal with |- _ /\ _ => split | |- _ <-> _ => split end;
    intros; try discriminate; try congruence; try tauto; intuition congruence.
Qed.

(** X10.  [_find_error_str] starts by clearing the buffer, so nothing of
    an earlier message survives: its run is the same whatever the buffer
    held.  The buffer keeps its 64 bytes, and the text read from it is
    never longer than that, so the branch that appends an ellipsis is
    never taken. *)
Theorem _find_error_str_clears (s : AlpaoDeformableMirror * sdk) :
  (forall stale, _find_error_str (set_err_msg stale s.1, s.2) = _find_error_str s) /\
  let buffer := _err_msg (final (_find_error_str s)).1 in
  buffer = overwrite _err_msg_len (asdk_GetLastError _err_msg_len s.2).1.2
             (replicate _err_msg_len x00) /\
  length buffer = _err_msg_len /\
  (_err_msg_len <? text_len (Bytes (buffer_value buffer))) = false.
Proof.
  split.
  { intros stale. unfold _find_error_str, _find_error_str_with. now rewrite !bind_on_self. }
  cbv zeta.
  assert (Hbuf : _err_msg (final (_find_error_str s)).1
                 = overwrite _err_msg_len (asdk_GetLastError _err_msg_len s.2).1.2
                     (replicate _err_msg_len x00)).
  { unfold _find_error_str, _find_error_str_with. rewrite bind_on_self, bind_sdk_call. cbn [fst snd].
    destruct (asdk_GetLastError _err_msg_len s.2) as [[[st err] written] lib].
    cbn [fst snd]. rewrite bind_on_self. cbn [fst snd].
    destruct (st =? SUCCESS)%Z; [|reflexivity].
    rewrite bind_self. cbn [fst snd].
    destruct (_err_msg_len <? _); reflexivity. }
  rewrite Hbuf. split; [reflexivity|].
  set (written := (asdk_GetLastError _err_msg_len s.2).1.2).
  assert (Hlen : length (overwrite _err_msg_len written (replicate _err_msg_len x00))
                 = _err_msg_len).
  { unfold overwrite.
    rewrite length_take, length_app, length_take, length_drop, length_replicate. lia. }
  split; [exact Hlen|].
  apply Nat.ltb_ge. cbn [text_len]. revert Hlen.
  generalize (overwrite _err_msg_len written (replicate _err_msg_len x00)).
  generalize _err_msg_len.
  intros n buffer. revert n. induction buffer as [|c buffer IH]; intros n Hn; cbn in *; [lia|].
  destruct (Byte.eqb c x00); cbn; [lia|].
  destruct n; [lia|]. specialize (IH n). lia.
Qed.

(** X11.  [__init__] and the handle [asdk.Init] returns.  A null handle
    raises at once: the error stack is not looked at and the actuator
    count is not asked for.  With a handle, the error stack is looked at
    next (the status passed is [asdk.FAILURE]): when the library has an
    error to report [__init__] raises although it holds a handle, and the
    actuator count is never asked for; when it has none, the count is
    asked of that handle. *)
Theorem __init__checks_handle (serial_number : string)
    (s : AlpaoDeformableMirror * sdk) :
  let serial := list_byte_of_string serial_number in
  let dm := (asdk_Init serial s.2).1 in
  let after_init := (asdk_Init serial s.2).2 in
  let run := __init__ serial_number s in
  (dm = 0%Z ->
     outcome run
     = Raises (Exception "Failed to initialise connection: don't know why") /\
     effects run = [SetAttr "_err_msg"; Sdk (Call_Init serial); SetAttr "_dm"]) /\
  (dm <> 0%Z -> FAILURE <> SUCCESS ->
     ((asdk_GetLastError _err_msg_len after_init).1.1.1 = SUCCESS ->
        raised (outcome run) = true /\
        sdk_calls (effects run) = [Call_Init serial; Call_GetLastError]) /\
     ((asdk_GetLastError _err_msg_len after_init).1.1.1 <> SUCCESS ->
        [Call_Init serial; Call_GetLastError; Call_Get dm (b"NbOfActuator")]
          `prefix_of` sdk_calls (effects run))).
Proof.
  intros serial dm after_init run. subst run. unfold __init__.
  rewrite bind_emit; cbn beta. rewrite bind_on_self; cbn beta.
  rewrite bind_sdk_call; cbn beta zeta. rewrite bind_emit; cbn beta.
  rewrite bind_on_self; cbn beta.
  cbn [outcome final effects fst snd].
  fold serial. fold dm. fold after_init.
  set (s0 := (set_dm dm _, after_init)).
  split.
  - intros ->. now split.
  - intros Hdm Hfail. apply Z.eqb_neq in Hdm. rewrite Hdm.
    apply Z.eqb_neq in Hfail.
    pose proof (_raise_if_error_outcome FAILURE s0) as Hout.
    pose proof (_raise_if_error_effects FAILURE s0) as Heff.
    rewrite Hfail in Hout, Heff.
    change (last_error_status s0)
      with ((asdk_GetLastError _err_msg_len after_init).1.1.1) in Hout.
    destruct (_raise_if_error FAILURE s0) as [[[u1|e1] s1] t1] eqn:E1;
      cbn [outcome effects fst snd] in Hout, Heff; subst t1.
    + rewrite (bind_returns _ _ _ _ _ _ E1), bind_sdk_call.
      cbn [outcome final effects fst snd]. split.
      * intros Hl. apply Z.eqb_eq in Hl. rewrite Hl in Hout. discriminate.
      * intros _. cbn. eexists. reflexivity.
    + rewrite (bind_raises _ _ _ _ _ _ E1). cbn [outcome final effects fst snd].
      split.
      * intros _. now split.
      * intros Hl. apply Z.eqb_neq in Hl. rewrite Hl in Hout. discriminate.
Qed.

(** X12.  [zero] resets this instance's mirror with one call of
    [asdk.Reset] and keeps the handle, the actuator count and the trigger
    type.  It returns exactly when the reset succeeds or the library has
    no error to report afterwards; otherwise it raises. *)
Theorem zero_resets (s : AlpaoDeformableMirror * sdk) :
  let status := (asdk_Reset (_dm s.1) s.2).1 in
  let after_reset := (s.1, (asdk_Reset (_dm s.1) s.2).2) in
  sdk_calls (effects (zero s))
  = Call_Reset (_dm s.1)
      :: (if (status =? SUCCESS)%Z then [] else [Call_GetLastError]) /\
  (outcome (zero s) = Returns tt <->
   status = SUCCESS \/ last_error_status after_reset <> SUCCESS) /\
  keeps_handle s (final (zero s)) (effects (zero s)).
Proof.
  intros status after_reset. unfold zero.
  rewrite bind_self, bind_sdk_call. cbn [outcome final effects fst snd].
  fold status. fold after_reset.
  rewrite _raise_if_error_effects, _raise_if_error_outcome.
  split; [|split].
  - now destruct (status =? SUCCESS)%Z.
  - destruct (Z.eqb_spec status SUCCESS) as [Hs|Hs];
      destruct (Z.eqb_spec (last_error_status after_reset) SUCCESS) as [Hl|Hl];
      clear - Hs Hl; split; intros; try discriminate; try congruence;
      try tauto; intuition congruence.
  - exact (_raise_if_error_keeps_handle status after_reset).
Qed.

End Mirror.

(** *** The driver on the stand-in library *)

Definition mirror97 : AlpaoDeformableMirror unit :=
  {| _err_msg := replicate 64 x00; _dm := 1; n_actuators := Some 97%Z;
     trigger_type := SOFTWARE; inherited := tt |}.

(** The shape check of the base class, as an instance: at most two
    dimensions, the last one the actuator count. *)
Definition shape_check (o : AlpaoDeformableMirror unit) (p : ndarray) : option exn :=
  if (length (shape p) <=? 2)
     && bool_decide (Some (Z.of_nat (List.last (shape p) 0)) = n_actuators unit o)
  then None else Some (Exception "wrong shape").

Definition keep_queue (o : AlpaoDeformableMirror unit) (p : ndarray)
    : result unit * AlpaoDeformableMirror unit :=
  (Returns tt, o).

Example _normalize_patterns_example :
  _normalize_patterns
    [Self; Array {| shape := [3]; data := [0; 1; 0.5]%float |}]
  = Returns {| shape := [3]; data := [-1; 1; 0]%float |}.
Proof. reflexivity. Qed.

(** After a good [asdk.Init] the error stack is empty; [__init__] still
    runs the error path with [asdk.FAILURE], and nothing is raised. *)
Example __init__example :
  __init__ error_stack 0 (-1) stack_Init stack_GetLastError stack_Get unit
    "BIL103" (fresh unit SOFTWARE tt, [])
  = (Returns tt, (mirror97, []),
     [SetAttr "_err_msg"; Sdk (Call_Init (b"BIL103")); SetAttr "_dm";
      Sdk Call_GetLastError; Sdk (Call_Get 1 (b"NbOfActuator"));
      SetAttr "n_actuators"]).
Proof. reflexivity. Qed.

(** C2 as stated fails: [asdk.Reset] returns a status other than
    [asdk.SUCCESS], the library has no error to report, and [zero]
    returns normally. *)
Lemma _raise_if_error_counterexample :
  (failing_Reset 1 []).1 <> 0%Z /\
  zero error_stack 0 stack_GetLastError failing_Reset unit (mirror97, [])
  = (Returns tt, (mirror97, []), [Sdk (Call_Reset 1); Sdk Call_GetLastError]).
Proof. split; [discriminate | reflexivity]. Qed.

(** Python 2's [+], for which the buffer's [bytes] and the literals are
    one type. *)
Definition text_bytes (x : text) : list byte :=
  match x with Bytes l => l | Str s => list_byte_of_string s end.

Definition text_add_python2 (x y : text) : result text :=
  Returns (Bytes (text_bytes x ++ text_bytes y)).

(** A good status; a failure with nothing on the error stack; and a
    failure with an error on the stack, where [+] builds the message. *)
Lemma _raise_if_error_guarded_witness :
  _raise_if_error_with error_stack 0 stack_GetLastError unit text_add 0 (mirror97, [])
  = (Returns tt, (mirror97, []), [])
  /\ outcome (_raise_if_error_with error_stack 0 stack_GetLastError unit text_add (-1)
                (mirror97, []))
     = Returns tt
  /\ outcome (_raise_if_error_with error_stack 0 stack_GetLastError unit
                text_add_python2 (-1) (mirror97, [(5%Z, b"Oops")]))
     = Raises (Exception "Oops(error 5)")
  /\ _err_msg unit
       (final (_raise_if_error_with error_stack 0 stack_GetLastError unit
                 text_add_python2 (-1) (mirror97, [(5%Z, b"Oops")]))).1
     = b"Oops" ++ replicate 60 x00.
Proof.
  split; [|split; [|split]].
  - apply (proj1 (_raise_if_error_guarded error_stack 0 stack_GetLastError unit
                    text_add 0 (mirror97, []))).
    reflexivity.
  - destruct (proj2 (_raise_if_error_guarded error_stack 0 stack_GetLastError unit
                       text_add (-1) (mirror97, [])))
      as (_ & _ & Hempty & _); [discriminate|].
    destruct Hempty as [_ Hout]; [discriminate | exact Hout].
  - destruct (proj2 (_raise_if_error_guarded error_stack 0 stack_GetLastError unit
                       text_add_python2 (-1) (mirror97, [(5%Z, b"Oops")])))
      as (_ & _ & _ & Hmsg); [discriminate|].
    destruct (Hmsg eq_refl (Bytes (b"Oops(error 5)")) eq_refl eq_refl) as [_ Hout].
    exact Hout.
  - destruct (proj2 (_raise_if_error_guarded error_stack 0 stack_GetLastError unit
                       text_add_python2 (-1) (mirror97, [(5%Z, b"Oops")])))
      as (Hfinal & _); [discriminate|].
    rewrite Hfinal. reflexivity.
Defined.

(** C10 at a pattern of the right shape: validation passes, and the call
    ends in [TypeError] before anything is sent. *)
Example apply_pattern_example :
  apply_pattern error_stack 0 stack_GetLastError stack_Send unit shape_check
    {| shape := [97]; data := replicate 97 0.5%float |} (mirror97, [])
  = (Raises TypeError, (mirror97, []), []).
Proof. reflexivity. Qed.

(** An [asdk.Init] that fails with a null handle. *)
Definition null_Init (serial : list byte) (st : error_stack) : Z * error_stack :=
  (0%Z, st).

(** [__init__] on a null handle, and on a handle that comes with an
    error on the stack. *)
Lemma __init__checks_handle_witness :
  outcome (__init__ error_stack 0 (-1) null_Init stack_GetLastError stack_Get unit
             "BIL103" (fresh unit SOFTWARE tt, []))
  = Raises (Exception "Failed to initialise connection: don't know why")
  /\ sdk_calls (effects (__init__ error_stack 0 (-1) stack_Init stack_GetLastError
                           stack_Get unit "BIL103"
                           (fresh unit SOFTWARE tt, [(5%Z, b"CannotOpenCfg")])))
     = [Call_Init (b"BIL103"); Call_GetLastError].
Proof.
  split.
  - apply (proj1 (__init__checks_handle error_stack 0 (-1) null_Init
                    stack_GetLastError stack_Get unit "BIL103"
                    (fresh unit SOFTWARE tt, []))).
    reflexivity.
  - apply (proj2 (__init__checks_handle error_stack 0 (-1) stack_Init
                    stack_GetLastError stack_Get unit "BIL103"
                    (fresh unit SOFTWARE tt, [(5%Z, b"CannotOpenCfg")])));
      [discriminate | discriminate | reflexivity].
Defined.

End Alpao.

(** ** The BMC deformable mirror ([microscope/mirror/bmc.py]) *)

Module Bmc.

(** The names bound at module level: the four imports that are not
    commented out, and the class.  The import of the [BMC] wrapper
    (line 27) is a comment. *)
Definition module_globals : list (string * pyobj) :=
  [ ("ctypes", Module "ctypes"); ("os", Module "os");
    ("warnings", Module "warnings"); ("microscope", Module "microscope");
    ("BMCDeformableMirror", Class_ "BMCDeformableMirror") ]%string.

Fixpoint lookup_name (name : string) (scope : list (string * pyobj)) : option pyobj :=
  match scope with
  | [] => None
  | (n, v) :: rest => if String.eqb n name then Some v else lookup_name name rest
  end.

(** Reading a name inside a function: its locals, then the module's
    globals; a name bound in neither raises [NameError] (none of the names
    read below is a builtin). *)
Definition load_name (locals : list (string * pyobj)) (name : string) : result pyobj :=
  match lookup_name name locals with
  | Some v => Returns v
  | None =>
      match lookup_name name module_globals with
      | Some v => Returns v
      | None => Raises (NameError name)
      end
  end.

(** [x.ctypes.data_as(ctypes.POINTER(ctypes.c_double))]: the array's own
    data; other objects have no [ctypes] attribute. *)
Definition data_as_double_pointer (x : pyobj) : result ndarray :=
  match x with
  | Array a => Returns a
  | _ => Raises (AttributeError "ctypes")
  end.

Inductive call : Type :=
| Call_SetArray (dm : Z) (values : ndarray).

Section Mirror.
(** The vendor library behind the [BMC] wrapper, and what the base class
    keeps on the instance. *)
Variable sdk : Type.
Variable BMC_SetArray : Z -> ndarray -> sdk -> Z * sdk.
Variable BMC_ErrorString : Z -> string.
Variable base : Type.

Record BMCDeformableMirror : Type := {
  _dm : Z;
  _n_actuators : Z;
  inherited : base;
}.

Variable _validate_patterns : BMCDeformableMirror -> ndarray -> option exn.

Definition M (A : Type) : Type := prog (BMCDeformableMirror * sdk) call A.

Definition of_result {A} (r : result A) : M A :=
  match r with Returns a => ret a | Raises e => raise e end.

(** [apply_pattern] (lines 45-50). *)
Definition apply_pattern (pattern : ndarray) : M unit :=
  s <- get_state ;;
  let self := s.1 in
  let locals := [("self", Self); ("pattern", Array pattern)]%string in
  match _validate_patterns self pattern with
  | Some e => raise e
  | None =>
      values <- of_result (load_name locals "values") ;;
      _ <- of_result (load_name locals "ctypes") ;;
      data_pointer <- of_result (data_as_double_pointer values) ;;
      _ <- of_result (load_name locals "BMC") ;;
      status <- (fun s => match BMC_SetArray (_dm self) data_pointer s.2 with
                          | (status, lib) =>
                              (Returns status, (s.1, lib),
                               [Call_SetArray (_dm self) data_pointer])
                          end) ;;
      if negb (status =? 0)%Z
      then raise (Exception (BMC_ErrorString status))
      else ret tt
  end.

(** C3 (the code at any pattern).  [apply_pattern] validates the
    pattern; a pattern that passes is never handed to [BMC.SetArray]:
    the next statement reads [values], a name bound nowhere, and the
    call ends in [NameError] with the mirror and the library untouched. *)
Theorem apply_pattern_never_sets (pattern : ndarray) (s : BMCDeformableMirror * sdk) :
  apply_pattern pattern s
  = (match _validate_patterns s.1 pattern with
     | Some e => Raises e
     | None => Raises (NameError "values")
     end, s, []).
Proof.
  unfold apply_pattern, bind, get_state. cbn [fst snd].
  destruct (_validate_patterns s.1 pattern); reflexivity.
Qed.

(** *** The other methods *)

(** Whether a name read inside a function is bound: in its locals, or at
    module level. *)
Definition bound_name (locals : list string) (name : string) : result unit :=
  if bool_decide (name ∈ locals) then Returns tt
  else match lookup_name name module_globals with
       | Some _ => Returns tt
       | None => Raises (NameError name)
       end.

(** What these methods do outside the instance: calls into the library
    behind the [BMC] wrapper, calls of the base class's methods, and
    warnings. *)
Inductive library_call : Type :=
| Call_DM
| Call_ConfigureLog (log_all : bool)
| Call_Open (dm : Z) (serial : list byte)
| Call_ClearArray (dm : Z)
| Call_Close (dm : Z)
| Super (method : string)
| Warn (message : string).

(** [__debug__], the library's other entry points, the [ActCount] field
    of a [BMC.DM], and the base class's [__init__] and [__del__]. *)
Variable debug : bool.
Variable BMC_DM : sdk -> Z * sdk.
Variable BMC_ConfigureLog : bool -> sdk -> unit * sdk.
Variable BMC_Open : Z -> list byte -> sdk -> Z * sdk.
Variable BMC_ActCount : Z -> sdk -> Z.
Variable BMC_ClearArray : Z -> sdk -> Z * sdk.
Variable BMC_Close : Z -> sdk -> Z * sdk.
Variable super___init__ : BMCDeformableMirror -> result unit * BMCDeformableMirror.
Variable super___del__ : BMCDeformableMirror -> result unit * BMCDeformableMirror.

Definition L (A : Type) : Type := prog (BMCDeformableMirror * sdk) library_call A.

Definition name_ (locals : list string) (name : string) : L unit :=
  match bound_name locals name with Returns _ => ret tt | Raises e => raise e end.

Definition library {A} (c : library_call) (f : sdk -> A * sdk) : L A := fun s =>
  match f s.2 with (a, lib) => (Returns a, (s.1, lib), [c]) end.

Definition super_ (method : string)
    (f : BMCDeformableMirror -> result unit * BMCDeformableMirror) : L unit := fun s =>
  match f s.1 with (r, o) => (r, (o, s.2), [Super method]) end.

Definition set_dm (dm : Z) (o : BMCDeformableMirror) : BMCDeformableMirror :=
  {| _dm := dm; _n_actuators := _n_actuators o; inherited := inherited o |}.

Definition set_n_actuators (n : Z) (o : BMCDeformableMirror) : BMCDeformableMirror :=
  {| _dm := _dm o; _n_actuators := n; inherited := inherited o |}.

(** [__init__] (lines 30-43). *)
Definition __init__ (serial_number : string) : L unit :=
  let locals := ["self"; "serial_number"; "args"; "kwargs"; "status"]%string in
  super_ "__init__" super___init__ ;;
  name_ locals "BMC" ;;
  dm <- library Call_DM BMC_DM ;;
  modify (fun s => (set_dm dm s.1, s.2)) ;;
  name_ locals "BMC" ;; name_ locals "os" ;; name_ locals "BMC" ;;
  library (Call_ConfigureLog debug) (BMC_ConfigureLog debug) ;;
  name_ locals "BMC" ;;
  s <- get_state ;;
  let serial := list_byte_of_string serial_number in
  status <- library (Call_Open (_dm s.1) serial) (BMC_Open (_dm s.1) serial) ;;
  if negb (status =? 0)%Z then
    name_ locals "BMC" ;;
    raise (Exception (BMC_ErrorString status))
  else
    modify (fun s => (set_n_actuators (BMC_ActCount (_dm s.1) s.2) s.1, s.2)).

(** [zero] (lines 52-53). *)
Definition zero : L unit :=
  name_ ["self"]%string "BMC" ;;
  s <- get_state ;;
  _ <- library (Call_ClearArray (_dm s.1)) (BMC_ClearArray (_dm s.1)) ;;
  ret tt.

(** [__del__] (lines 55-59). *)
Definition __del__ : L unit :=
  let locals := ["self"; "status"]%string in
  name_ locals "BMC" ;;
  s <- get_state ;;
  status <- library (Call_Close (_dm s.1)) (BMC_Close (_dm s.1)) ;;
  (if negb (status =? 0)%Z then
     name_ locals "warnings" ;; name_ locals "BMC" ;;
     emit (Warn (BMC_ErrorString status))
   else ret tt) ;;
  super_ "__del__" super___del__.

(** X13.  No method of the class reaches the vendor library: each reads
    the name [BMC] first, which the module does not bind.  [__init__]
    ends in [NameError] as soon as the base class's [__init__] has
    returned, so no instance is ever built; [zero] and [__del__] end in
    [NameError] with nothing done. *)
Theorem BMC_is_not_bound (serial_number : string) (s : BMCDeformableMirror * sdk) :
  __init__ serial_number s
  = (match (super___init__ s.1).1 with
     | Returns _ => Raises (NameError "BMC")
     | Raises e => Raises e
     end, ((super___init__ s.1).2, s.2), [Super "__init__"]) /\
  zero s = (Raises (NameError "BMC"), s, []) /\
  __del__ s = (Raises (NameError "BMC"), s, []).
Proof.
  split; [|split].
  - unfold __init__, super_, bind at 1.
    destruct (super___init__ s.1) as [[u|e] o]; reflexivity.
  - destruct s. reflexivity.
  - destruct s. reflexivity.
Qed.

End Mirror.

(** Neither [values] nor [BMC] is bound where [apply_pattern] reads
    them. *)
Example apply_pattern_names :
  load_name [("self", Self); ("pattern", Array {| shape := [2]; data := [0; 1]%float |})]%string
    "values" = Raises (NameError "values")
  /\ load_name [("self", Self)]%string "BMC" = Raises (NameError "BMC")
  /\ load_name [("self", Self)]%string "ctypes" = Returns (Module "ctypes").
Proof. repeat split; reflexivity. Qed.

End Bmc.

(** ** The mock shared libraries ([microscope/testsuite/libs.py]) *)

Module Libs.

(** The classes the module defines before [_lib_to_mock] is built. *)
Inductive module_class : Type :=
| MockFuncPtr
| MockSharedLib
| MockLibasdk
| MockLibatcore
| MockLibatutility
| MockLibBMC
| MockLibpvcam.

Definition class_name (c : module_class) : string :=
  match c with
  | MockFuncPtr => "MockFuncPtr"
  | MockSharedLib => "MockSharedLib"
  | MockLibasdk => "MockLibasdk"
  | MockLibatcore => "MockLibatcore"
  | MockLibatutility => "MockLibatutility"
  | MockLibBMC => "MockLibBMC"
  | MockLibpvcam => "MockLibpvcam"
  end.

(** [issubclass(c, MockSharedLib)]: the base class itself and its five
    subclasses. *)
Definition issubclass_MockSharedLib (c : module_class) : bool :=
  match c with MockFuncPtr => false | _ => true end.

(** The [libs] attribute of each class (empty on the base class). *)
Definition libs (c : module_class) : list string :=
  match c with
  | MockFuncPtr | MockSharedLib => []
  | MockLibasdk => ["libasdk.so"; "ASDK"]
  | MockLibatcore => ["atcore.so"; "atcore"]
  | MockLibatutility => ["atutility.so"; "atutility"]
  | MockLibBMC => ["libBMC.so.3"; "BMC"]
  | MockLibpvcam => ["pvcam.so"; "pvcam32"; "pvcam64"]
  end.

(** The [functions] attribute of each class, as listed in the source. *)
Definition functions (c : module_class) : list string :=
  match c with
  | MockFuncPtr | MockSharedLib => []
  | MockLibasdk =>
      [
        "asdkGet"; "asdkGetLastError"; "asdkInit"; "asdkRelease"; "asdkSend";
        "asdkSendPattern"; "asdkSet" ]
  | MockLibatcore =>
      [
        "AT_Close"; "AT_Command"; "AT_FinaliseLibrary"; "AT_Flush";
        "AT_GetBool"; "AT_GetEnumCount"; "AT_GetEnumIndex";
        "AT_GetEnumStringByIndex"; "AT_GetEnumerated";
        "AT_GetEnumeratedCount"; "AT_GetEnumeratedString"; "AT_GetFloat";
        "AT_GetFloatMax"; "AT_GetFloatMin"; "AT_GetInt"; "AT_GetIntMax";
        "AT_GetIntMin"; "AT_GetString"; "AT_GetStringMaxLength";
        "AT_InitialiseLibrary"; "AT_IsEnumIndexAvailable";
        "AT_IsEnumIndexImplemented"; "AT_IsEnumeratedIndexAvailable";
        "AT_IsEnumeratedIndexImplemented"; "AT_IsImplemented";
        "AT_IsReadOnly"; "AT_IsReadable"; "AT_IsWritable"; "AT_Open";
        "AT_QueueBuffer"; "AT_RegisterFeatureCallback"; "AT_SetBool";
        "AT_SetEnumIndex"; "AT_SetEnumString"; "AT_SetEnumerated";
        "AT_SetEnumeratedString"; "AT_SetFloat"; "AT_SetInt"; "AT_SetString";
        "AT_UnregisterFeatureCallback"; "AT_WaitBuffer" ]
  | MockLibatutility =>
      [
        "AT_ConvertBuffer"; "AT_ConvertBufferUsingMetadata";
        "AT_FinaliseUtilityLibrary"; "AT_InitialiseUtilityLibrary" ]
  | MockLibBMC =>
      [
        "BMCClose"; "BMCConfigureLog"; "BMCErrorString"; "BMCGetArray";
        "BMCOpen"; "BMCSetArray"; "BMCVersionString" ]
  | MockLibpvcam =>
      [
        "pl_cam_close"; "pl_cam_deregister_callback"; "pl_cam_get_name";
        "pl_cam_get_total"; "pl_cam_open"; "pl_cam_register_callback";
        "pl_cam_register_callback_ex"; "pl_cam_register_callback_ex2";
        "pl_cam_register_callback_ex3"; "pl_create_frame_info_struct";
        "pl_create_smart_stream_struct"; "pl_enum_str_length";
        "pl_exp_abort"; "pl_exp_abort"; "pl_exp_check_cont_status";
        "pl_exp_check_cont_status_ex"; "pl_exp_check_status";
        "pl_exp_finish_seq"; "pl_exp_get_latest_frame";
        "pl_exp_get_latest_frame_ex"; "pl_exp_get_oldest_frame";
        "pl_exp_get_oldest_frame_ex"; "pl_exp_setup_cont";
        "pl_exp_setup_seq"; "pl_exp_start_cont"; "pl_exp_start_seq";
        "pl_exp_stop_cont"; "pl_exp_unlock_oldest_frame";
        "pl_get_enum_param"; "pl_get_param"; "pl_pp_reset";
        "pl_pvcam_get_ver"; "pl_pvcam_init"; "pl_pvcam_uninit";
        "pl_release_frame_info_struct"; "pl_release_smart_stream_struct";
        "pl_set_param" ]
  end.

(** [inspect.getmembers(module, inspect.isclass)]: the classes by name,
    in the order of their names. *)
Definition members : list module_class :=
  [ MockFuncPtr; MockLibBMC; MockLibasdk; MockLibatcore; MockLibatutility;
    MockLibpvcam; MockSharedLib ].

(** [_lib_to_mock] (lines 197-201). *)
Definition _lib_to_mock : gmap string module_class :=
  foldl (fun m c =>
           if issubclass_MockSharedLib c
           then foldl (fun m lib => <[lib := c]> m) m (libs c)
           else m)
        ∅ members.

(** What an attribute of these objects can be. *)
Inductive attribute : Type :=
| FuncPtr                              (* a [MockFuncPtr()] *)
| Names (l : list string)              (* a list of strings *)
| Text (s : string)                    (* a string *)
| Mock (c : module_class)              (* an instance of a mock class *)
| Other (owner name : string)          (* a method or slot of the classes *)
| NoneValue.                           (* [None] *)

(** [MockFuncPtr.__call__] (lines 41-42): no parameter besides [self]. *)
Definition MockFuncPtr___call__ (args : list attribute) : result Z :=
  match args with
  | [] => Returns 0%Z
  | _ => Raises TypeError
  end.

(** [MockSharedLib.__getattr__] (lines 56-61). *)
Definition MockSharedLib___getattr__ (c : module_class) (name : string)
    : result attribute :=
  if bool_decide (name ∈ functions c) then Returns FuncPtr
  else Raises (AttributeError ("no symbol '" ++ name ++ "' in this mock library '"
                               ++ class_name c ++ "'")).

(** The object [CDLL(name)] builds: backed by a mock, with the two
    attributes [__init__] assigns (lines 209-210), or handed to
    [ctypes.CDLL.__init__]. *)
Inductive CDLL : Type :=
| Mocked (_name : string) (_handle : module_class)
| Real (name : string).

(** [CDLL.__init__] (lines 207-212). *)
Definition CDLL___init__ (name : string) : CDLL :=
  match _lib_to_mock !! name with
  | Some c => Mocked name c
  | None => Real name
  end.

(** The names the mock classes bind in their class bodies. *)
Definition mock_class_attribute (c : module_class) (name : string) : option attribute :=
  if String.eqb name "libs" then Some (Names (libs c))
  else if String.eqb name "functions" then Some (Names (functions c))
  else if String.eqb name "__getattr__" then Some (Other "MockSharedLib" name)
  else if String.eqb name "__doc__" then Some (Other (class_name c) name)
  else if String.eqb name "__module__" then Some (Text "microscope.testsuite.libs")
  else None.

(** The names the class [CDLL] binds in its class body. *)
Definition CDLL_class_attribute (name : string) : option attribute :=
  if String.eqb name "__init__" then Some (Other "CDLL" name)
  else if String.eqb name "__getattr__" then Some (Other "CDLL" name)
  else if String.eqb name "__doc__" then Some (Other "CDLL" name)
  else if String.eqb name "__module__" then Some (Text "microscope.testsuite.libs")
  else None.

Definition starts_with_underscore (name : string) : bool :=
  match name with
  | String "_" _ => true
  | _ => false
  end.

(** The names ordinary lookup finds on a [CDLL] backed by the mock class
    [c], or on the mock itself, from the source alone. *)
Definition ordinary (c : module_class) (name : string) : bool :=
  String.eqb name "_name" || String.eqb name "_handle"
  || bool_decide (is_Some (CDLL_class_attribute name))
  || bool_decide (is_Some (mock_class_attribute c name)).

(** Names that [object] and [ctypes.CDLL] bind in CPython, as an instance
    of what the runtime resolves by itself. *)
Definition cpython_names : list string :=
  [ "__class__"; "__dict__"; "__weakref__"; "__new__"; "__repr__"; "__str__";
    "__eq__"; "__ne__"; "__hash__"; "__getattribute__"; "__setattr__";
    "__delattr__"; "__dir__"; "__format__"; "__reduce__"; "__reduce_ex__";
    "__sizeof__"; "__subclasshook__"; "__init_subclass__"; "__getitem__";
    "_func_flags_"; "_func_restype_"; "_FuncPtr" ].

Definition inherited_cpython (name : string) : bool :=
  bool_decide (name ∈ cpython_names).

Section Lookup.
(** The names [object], [ctypes.CDLL] and the class machinery resolve on
    any instance ([__class__], [__dict__], [_func_flags_], ...); in
    CPython each starts with an underscore. *)
Variable inherited : string -> bool.
Hypothesis inherited_private :
  forall name, inherited name = true -> starts_with_underscore name = true.

(** [ctypes.CDLL.__getattr__(name)] on a real library: the exception it
    raises, if any. *)
Variable ctypes_getattr : string -> string -> option exn.

(** [getattr(handle, name)] on an instance of a mock class: Python finds
    what the class binds (the instance has no attribute of its own), and
    calls [__getattr__] only for a name it does not find. *)
Definition getattr_mock (c : module_class) (name : string) : result attribute :=
  match mock_class_attribute c name with
  | Some v => Returns v
  | None =>
      if inherited name then Returns (Other "object" name)
      else MockSharedLib___getattr__ c name
  end.

(** [CDLL.__getattr__] (lines 214-218); its second branch has no
    [return]. *)
Definition CDLL___getattr__ (self : CDLL) (name : string) : result attribute :=
  match self with
  | Mocked _ handle => getattr_mock handle name
  | Real lib =>
      match ctypes_getattr lib name with
      | Some e => Raises e
      | None => Returns NoneValue
      end
  end.

(** Attribute lookup on the object, [obj.<name>]: the instance's own
    attributes ([_name] and [_handle], which [ctypes.CDLL.__init__] also
    assigns), then its classes', then [__getattr__]. *)
Definition getattr (self : CDLL) (name : string) : result attribute :=
  if String.eqb name "_name" then
    Returns (Text (match self with Mocked n _ => n | Real n => n end))
  else if String.eqb name "_handle" then
    Returns (match self with
             | Mocked _ handle => Mock handle
             | Real _ => Other "ctypes.CDLL" name
             end)
  else match CDLL_class_attribute name with
       | Some v => Returns v
       | None =>
           if inherited name then Returns (Other "ctypes.CDLL" name)
           else CDLL___getattr__ self name
       end.


(** *** Which library names are mocked *)

Lemma _lib_to_mock_inserts :
  _lib_to_mock
  = <["pvcam64" := MockLibpvcam]> (<["pvcam32" := MockLibpvcam]>
    (<["pvcam.so" := MockLibpvcam]>
    (<["atutility" := MockLibatutility]> (<["atutility.so" := MockLibatutility]>
    (<["atcore" := MockLibatcore]> (<["atcore.so" := MockLibatcore]>
    (<["ASDK" := MockLibasdk]> (<["libasdk.so" := MockLibasdk]>
    (<["BMC" := MockLibBMC]> (<["libBMC.so.3" := MockLibBMC]> ∅)))))))))).
Proof. reflexivity. Qed.

Lemma _lib_to_mock_covers (c : module_class) (lib : string) :
  issubclass_MockSharedLib c = true -> lib ∈ libs c ->
  _lib_to_mock !! lib = Some c.
Proof.
  intros _ Hin. rewrite _lib_to_mock_inserts.
  destruct c; cbn [libs] in Hin;
    repeat (apply elem_of_cons in Hin as [-> | Hin]; [now simplify_map_eq|]);
    now apply elem_of_nil in Hin.
Qed.

Lemma _lib_to_mock_others (name : string) :
  (forall c, issubclass_MockSharedLib c = true -> name ∉ libs c) ->
  _lib_to_mock !! name = None.
Proof.
  intros Hout. rewrite _lib_to_mock_inserts.
  pose proof (Hout MockLibasdk eq_refl) as H1.
  pose proof (Hout MockLibatcore eq_refl) as H2.
  pose proof (Hout MockLibatutility eq_refl) as H3.
  pose proof (Hout MockLibBMC eq_refl) as H4.
  pose proof (Hout MockLibpvcam eq_refl) as H5.
  cbn [libs] in *.
  rewrite !not_elem_of_cons in H1. rewrite !not_elem_of_cons in H2.
  rewrite !not_elem_of_cons in H3. rewrite !not_elem_of_cons in H4.
  rewrite !not_elem_of_cons in H5.
  rewrite !lookup_insert_ne by (intros <-; intuition congruence).
  apply lookup_empty.
Qed.

(** *** Attribute lookup *)

(** No function name of a mock class is also found by ordinary lookup,
    and none starts with an underscore. *)
Lemma functions_plain (c : module_class) :
  forallb (fun n => negb (ordinary c n) && negb (starts_with_underscore n))
    (functions c) = true.
Proof. destruct c; vm_compute; reflexivity. Qed.

Lemma functions_reach_hook (c : module_class) (name : string) :
  name ∈ functions c -> ordinary c name = false /\ inherited name = false.
Proof using inherited_private.
  intros Hin. pose proof (functions_plain c) as H.
  rewrite forallb_forall in H. apply list_elem_of_In in Hin.
  specialize (H name Hin). apply andb_true_iff in H as [H1 H2].
  apply negb_true_iff in H1, H2. split; [exact H1|].
  destruct (inherited name) eqn:Hi; [|reflexivity].
  apply inherited_private in Hi. congruence.
Qed.

(** A name ordinary lookup does not find goes to
    [MockSharedLib.__getattr__]. *)
Lemma getattr_hook (lib : string) (c : module_class) (name : string) :
  ordinary c name = false -> inherited name = false ->
  getattr (Mocked lib c) name = MockSharedLib___getattr__ c name.
Proof.
  unfold ordinary, getattr, CDLL___getattr__, getattr_mock.
  intros Hord Hinh.
  repeat (apply orb_false_iff in Hord as [Hord ?]).
  rewrite Hord. replace (String.eqb name "_handle") with false by auto.
  destruct (CDLL_class_attribute name) eqn:E1.
  { exfalso. rewrite bool_decide_eq_false in *. eauto. }
  destruct (mock_class_attribute c name) eqn:E2.
  { exfalso. rewrite bool_decide_eq_false in *. eauto. }
  now rewrite Hinh.
Qed.

(** C7 (as amended).  For a library name listed by a mock class,
    [CDLL(name)] is backed by that class.  Looking up a name of the
    class's [functions] list gives a mock function pointer, which returns
    0 when called.  A name not in the list raises [AttributeError],
    unless ordinary lookup finds it first: the instance attributes
    [_name] and [_handle], what the classes bind ([libs], [functions],
    [__init__], ...) and what the runtime resolves by itself.  A name no
    mock class lists is handed on to [ctypes.CDLL]. *)
Theorem CDLL_mock_lookup (c : module_class) (lib : string) :
  issubclass_MockSharedLib c = true -> lib ∈ libs c ->
  CDLL___init__ lib = Mocked lib c /\
  (forall name, name ∈ functions c ->
     getattr (CDLL___init__ lib) name = Returns FuncPtr
     /\ MockFuncPtr___call__ [] = Returns 0%Z) /\
  (forall name, name ∉ functions c ->
     ordinary c name = false -> inherited name = false ->
     getattr (CDLL___init__ lib) name
     = Raises (AttributeError ("no symbol '" ++ name ++ "' in this mock library '"
                               ++ class_name c ++ "'"))) /\
  (forall other,
     (forall c', issubclass_MockSharedLib c' = true -> other ∉ libs c') ->
     CDLL___init__ other = Real other).
Proof using inherited_private.
  intros Hsub Hlib.
  assert (Hinit : CDLL___init__ lib = Mocked lib c).
  { unfold CDLL___init__. now rewrite (_lib_to_mock_covers c lib Hsub Hlib). }
  rewrite Hinit. split; [reflexivity|]. split; [|split].
  - intros name Hin. split; [|reflexivity].
    destruct (functions_reach_hook c name Hin) as [Hord Hinh].
    rewrite (getattr_hook lib c name Hord Hinh).
    unfold MockSharedLib___getattr__. now rewrite bool_decide_eq_true_2.
  - intros name Hout Hord Hinh.
    rewrite (getattr_hook lib c name Hord Hinh).
    unfold MockSharedLib___getattr__. now rewrite bool_decide_eq_false_2.
  - intros other Hout. unfold CDLL___init__.
    now rewrite (_lib_to_mock_others other Hout).
Qed.

End Lookup.

(** *** The dictionary and the order of the classes *)

(** The loop of lines 198-201 over any list of classes. *)
Definition lib_map_of (classes : list module_class) : gmap string module_class :=
  foldl (fun m c =>
           if issubclass_MockSharedLib c
           then foldl (fun m lib => <[lib := c]> m) m (libs c)
           else m)
        ∅ classes.

Lemma insert_all_lookup (c : module_class) (names : list string)
    (m : gmap string module_class) (name : string) :
  foldl (fun m lib => <[lib := c]> m) m names !! name
  = if bool_decide (name ∈ names) then Some c else m !! name.
Proof.
  revert m. induction names as [|n names IH]; intros m; [reflexivity|].
  cbn [foldl]. rewrite IH.
  destruct (decide (name ∈ names)) as [Hin|Hout].
  - rewrite !bool_decide_eq_true_2; [reflexivity | now right | exact Hin].
  - rewrite (bool_decide_eq_false_2 _ Hout).
    destruct (decide (name = n)) as [->|Hne].
    + rewrite lookup_insert_eq, bool_decide_eq_true_2; [reflexivity | now left].
    + rewrite lookup_insert_ne by congruence.
      rewrite bool_decide_eq_false_2; [reflexivity|].
      rewrite elem_of_cons. tauto.
Qed.

(** No library name is listed by two classes. *)
Lemma libs_disjoint (c c' : module_class) (name : string) :
  name ∈ libs c -> name ∈ libs c' -> c = c'.
Proof.
  intros H H'. apply list_elem_of_In in H, H'.
  destruct c, c'; cbn in H, H'; try reflexivity; exfalso;
    intuition (subst; discriminate).
Qed.

Lemma lib_map_of_lookup (classes : list module_class) (name : string)
    (c : module_class) :
  lib_map_of classes !! name = Some c <->
  c ∈ classes /\ issubclass_MockSharedLib c = true /\ name ∈ libs c.
Proof.
  induction classes as [|x classes IH] using rev_ind.
  { cbn. rewrite lookup_empty. split; [discriminate|].
    intros (H & _). now apply elem_of_nil in H. }
  unfold lib_map_of in *. rewrite foldl_app. cbn [foldl].
  rewrite elem_of_app, list_elem_of_singleton.
  destruct (issubclass_MockSharedLib x) eqn:Hx.
  - rewrite insert_all_lookup.
    destruct (decide (name ∈ libs x)) as [Hin|Hout].
    + rewrite (bool_decide_eq_true_2 _ Hin). split.
      * intros [= <-]. auto.
      * intros (_ & _ & Hc). f_equal. exact (libs_disjoint x c name Hin Hc).
    + rewrite (bool_decide_eq_false_2 _ Hout), IH. split.
      * intros (H1 & H2 & H3). auto.
      * intros ([H1 | ->] & H2 & H3); [auto | contradiction].
  - rewrite IH. split.
    + intros (H1 & H2 & H3). auto.
    + intros ([H1 | ->] & H2 & H3); [auto | congruence].
Qed.

(** X15.  [_lib_to_mock] maps a name to a class exactly when the class
    derives from [MockSharedLib] and lists the name in [libs].  No name
    is listed by two classes, so the dictionary does not depend on the
    order in which [inspect.getmembers] yields the classes. *)
Theorem _lib_to_mock_unambiguous :
  (forall name c,
     _lib_to_mock !! name = Some c <->
     issubclass_MockSharedLib c = true /\ name ∈ libs c) /\
  (forall classes, classes ≡ₚ members -> lib_map_of classes = _lib_to_mock).
Proof.
  assert (Hall : forall c : module_class, c ∈ members).
  { intros c. apply list_elem_of_In. destruct c; cbn; tauto. }
  split.
  - intros name c. change _lib_to_mock with (lib_map_of members).
    rewrite lib_map_of_lookup. split; [tauto|]. intros H. split; [apply Hall | exact H].
  - intros classes Hperm. apply map_eq. intros name.
    apply option_eq. intros c. change _lib_to_mock with (lib_map_of members).
    rewrite !lib_map_of_lookup. now rewrite Hperm.
Qed.


Lemma inherited_cpython_private (name : string) :
  inherited_cpython name = true -> starts_with_underscore name = true.
Proof.
  unfold inherited_cpython, cpython_names. intros H.
  apply bool_decide_eq_true_1 in H.
  repeat (apply elem_of_cons in H as [-> | H]; [reflexivity|]).
  now apply elem_of_nil in H.
Qed.

(** C7 as stated fails: [functions] and [_handle] are not in the
    [functions] list of the BMC mock, and looking them up on
    [CDLL("BMC")] returns a value instead of raising [AttributeError]. *)
Lemma CDLL_lookup_counterexample :
  "BMC" ∈ libs MockLibBMC /\
  ("functions" ∉ functions MockLibBMC) /\
  getattr inherited_cpython (fun _ _ => None) (CDLL___init__ "BMC") "functions"
  = Returns (Names (functions MockLibBMC)) /\
  ("_handle" ∉ functions MockLibBMC) /\
  getattr inherited_cpython (fun _ _ => None) (CDLL___init__ "BMC") "_handle"
  = Returns (Mock MockLibBMC).
Proof.
  split; [cbn; repeat constructor|].
  split; [apply (bool_decide_eq_false_1 _); vm_compute; reflexivity|].
  split; [reflexivity|].
  split; [apply (bool_decide_eq_false_1 _); vm_compute; reflexivity|].
  reflexivity.
Qed.

Lemma CDLL_mock_lookup_witness :
  CDLL___init__ "libasdk.so" = Mocked "libasdk.so" MockLibasdk
  /\ getattr inherited_cpython (fun _ _ => None) (CDLL___init__ "libasdk.so") "asdkSend"
     = Returns FuncPtr
  /\ getattr inherited_cpython (fun _ _ => None) (CDLL___init__ "libasdk.so") "asdkReset"
     = Raises (AttributeError
                 "no symbol 'asdkReset' in this mock library 'MockLibasdk'")
  /\ CDLL___init__ "libc.so.6" = Real "libc.so.6".
Proof.
  destruct (CDLL_mock_lookup inherited_cpython inherited_cpython_private
              (fun _ _ => None) MockLibasdk "libasdk.so" eq_refl)
    as (Hinit & Hfun & Hother & Hreal).
  { cbn. repeat constructor. }
  split; [|split; [|split]].
  - exact Hinit.
  - apply Hfun. cbn. repeat constructor.
  - apply Hother; [|reflexivity..].
    apply (bool_decide_eq_false_1 _). vm_compute. reflexivity.
  - apply Hreal. intros c' _ Hin.
    apply list_elem_of_In in Hin.
    destruct c'; cbn in Hin; intuition discriminate.
Defined.

(** The dictionary built from the classes in the opposite order. *)
Lemma _lib_to_mock_unambiguous_witness :
  lib_map_of (reverse members) = _lib_to_mock
  /\ _lib_to_mock !! "pvcam32" = Some MockLibpvcam.
Proof.
  split.
  - apply (proj2 _lib_to_mock_unambiguous). apply reverse_Permutation.
  - apply (proj1 _lib_to_mock_unambiguous). split; [reflexivity|].
    cbn. repeat constructor.
Defined.


End Libs.

(** ** The calibration values of the laser and of the Alpao mirror *)

Section Calibration.
(** The runtime's conversions, the vendor library and the base class, as
    in the sections above. *)
Variable decode : list byte -> option string.
Variable float_of_str : string -> option float.
Variable format_5f : float -> list byte.
Variable sdk : Type.
Variable SUCCESS FAILURE : Z.
Variable asdk_Init : list byte -> sdk -> Z * sdk.
Variable asdk_GetLastError : nat -> sdk -> (Z * Z * list byte) * sdk.
Variable asdk_Get : Z -> list byte -> sdk -> (Z * float) * sdk.
Variable asdk_Send : Z -> ndarray -> sdk -> Z * sdk.
Variable asdk_Set : Z -> list byte -> Z -> sdk -> Z * sdk.
Variable asdk_SendPattern : Z -> ndarray -> nat -> nat -> sdk -> Z * sdk.
Variable asdk_Reset : Z -> sdk -> Z * sdk.
Variable base : Type.
Variable _validate_patterns : Alpao.AlpaoDeformableMirror base -> ndarray -> option exn.
Variable super_queue_patterns :
  Alpao.AlpaoDeformableMirror base -> ndarray
  -> result unit * Alpao.AlpaoDeformableMirror base.

(** C4.  [ObisLaser.__init__] assigns [_max_power] and [_min_power] at
    most once each, and exactly once when it returns; after that
    [get_status], [enable], [disable], [is_alive], [get_is_on], the power
    getters and [_set_power_mw] leave both values as they are and assign
    neither.  [AlpaoDeformableMirror.__init__] assigns [n_actuators] at
    most once, and exactly once when it returns; [apply_pattern],
    [set_trigger_type] and [zero] leave it as it is, and so does
    [queue_patterns] as long as the base class's [queue_patterns], which
    it calls for a software trigger, does. *)
Theorem calibration_values_assigned_once :
  (forall port : list Obis.read_result,
     let run := Obis.__init__ decode float_of_str (Obis.fresh port) in
     Obis.assignments "_max_power" (effects run) <= 1 /\
     Obis.assignments "_min_power" (effects run) <= 1 /\
     (outcome run = Returns tt ->
      Obis.assignments "_max_power" (effects run) = 1 /\
      Obis.assignments "_min_power" (effects run) = 1 /\
      is_Some (Obis._max_power (final run)) /\
      is_Some (Obis._min_power (final run)))) /\
  (always Obis.keeps_powers (Obis.get_status decode) /\
   always Obis.keeps_powers (Obis.enable decode) /\
   always Obis.keeps_powers (Obis.disable decode) /\
   always Obis.keeps_powers (Obis.is_alive decode) /\
   always Obis.keeps_powers (Obis.get_is_on decode) /\
   always Obis.keeps_powers (Obis.get_min_power_mw decode float_of_str) /\
   always Obis.keeps_powers (Obis.get_max_power_mw decode float_of_str) /\
   always Obis.keeps_powers (Obis._get_power_mw decode float_of_str) /\
   always Obis.keeps_powers (Obis.get_power_mw decode float_of_str) /\
   forall mW, always Obis.keeps_powers (Obis._set_power_mw decode format_5f mW)) /\
  (forall (serial_number : string) (s : Alpao.AlpaoDeformableMirror base * sdk),
     let run := Alpao.__init__ sdk SUCCESS FAILURE asdk_Init asdk_GetLastError
                  asdk_Get base serial_number s in
     Alpao.assignments "n_actuators" (effects run) <= 1 /\
     (outcome run = Returns tt ->
      Alpao.assignments "n_actuators" (effects run) = 1 /\
      is_Some (Alpao.n_actuators base (final run).1))) /\
  ((forall pattern,
      always (Alpao.keeps_count sdk base)
        (Alpao.apply_pattern sdk SUCCESS asdk_GetLastError asdk_Send base
           _validate_patterns pattern)) /\
   (forall ttype,
      always (Alpao.keeps_count sdk base)
        (Alpao.set_trigger_type sdk SUCCESS asdk_GetLastError asdk_Set base ttype)) /\
   always (Alpao.keeps_count sdk base)
     (Alpao.zero sdk SUCCESS asdk_GetLastError asdk_Reset base) /\
   ((forall o p, Alpao.n_actuators base (super_queue_patterns o p).2
                 = Alpao.n_actuators base o) ->
    forall patterns,
      always (Alpao.keeps_count sdk base)
        (Alpao.queue_patterns sdk SUCCESS asdk_GetLastError asdk_SendPattern base
           _validate_patterns super_queue_patterns patterns))).
Proof.
  split; [|split; [|split]].
  - intros port. apply Obis.__init__assigns_once.
  - repeat match goal with |- _ /\ _ => split end.
    + apply Obis.get_status_keeps_powers.
    + apply Obis.enable_keeps_powers.
    + apply Obis.disable_keeps_powers.
    + apply Obis.is_alive_keeps_powers.
    + apply Obis.get_is_on_keeps_powers.
    + apply Obis.get_min_power_mw_keeps_powers.
    + apply Obis.get_max_power_mw_keeps_powers.
    + apply Obis._get_power_mw_keeps_powers.
    + apply Obis.get_power_mw_keeps_powers.
    + apply Obis._set_power_mw_keeps_powers.
  - intros serial_number s. apply Alpao.__init__assigns_count_once.
  - repeat match goal with |- _ /\ _ => split end.
    + apply Alpao.apply_pattern_keeps_count.
    + apply Alpao.set_trigger_type_keeps_count.
    + apply Alpao.zero_keeps_count.
    + intros Hsuper patterns. now apply Alpao.queue_patterns_keeps_count.
Qed.

End Calibration.

(** A laser that answers every query of [__init__], each answer followed
    by its handshake line. *)
Definition obis_port : list Obis.read_result :=
  Obis.answers
    [ "OK"; "OFF"; "OK"; "OBIS LX 488"; "OK"; "12345"; "OK"; "ON"; "OK";
      "ON"; "OK"; "0"; "OK"; "OFF"; "OK"; "0.11"; "OK"; "0.001"; "OK" ].

Lemma calibration_values_assigned_once_witness :
  (let run := Obis.__init__ decode_ascii float_of_decimal (Obis.fresh obis_port) in
   Obis.assignments "_max_power" (effects run) = 1
   /\ Obis.assignments "_min_power" (effects run) = 1
   /\ is_Some (Obis._max_power (final run))
   /\ is_Some (Obis._min_power (final run)))
  /\ (let run := Alpao.__init__ Alpao.error_stack 0 (-1) Alpao.stack_Init
                   Alpao.stack_GetLastError Alpao.stack_Get unit "BIL103"
                   (Alpao.fresh unit SOFTWARE tt, []) in
      Alpao.assignments "n_actuators" (effects run) = 1
      /\ is_Some (Alpao.n_actuators unit (final run).1))
  /\ Alpao.n_actuators unit
       (final (Alpao.queue_patterns Alpao.error_stack 0 Alpao.stack_GetLastError
                 Alpao.stack_SendPattern unit Alpao.shape_check Alpao.keep_queue
                 {| shape := [97]; data := replicate 97 0.5%float |}
                 (Alpao.mirror97, []))).1
     = Some 97%Z.
Proof.
  pose proof (calibration_values_assigned_once decode_ascii float_of_decimal
                format_fixed5 Alpao.error_stack 0 (-1) Alpao.stack_Init
                Alpao.stack_GetLastError Alpao.stack_Get Alpao.stack_Send
                Alpao.stack_Set Alpao.stack_SendPattern Alpao.stack_Reset unit
                Alpao.shape_check Alpao.keep_queue)
    as (Hlaser & _ & Hmirror & _ & _ & _ & Hqueue).
  split; [|split].
  - apply (Hlaser obis_port). reflexivity.
  - apply (Hmirror "BIL103" (Alpao.fresh unit SOFTWARE tt, [])). reflexivity.
  - apply (Hqueue (fun o p => eq_refl)).
Defined.
